(** * SSML examples webhook (functions/index.js): model and properties

    The development embeds the [ssml] tag function, the example catalog,
    the canned responses and the three Dialogflow action handlers of
    [functions/index.js], and states the properties of the specification
    over that embedding.

    JavaScript strings are sequences of UTF-16 code units; they are
    modelled as lists of [N].  Source literals are written as Rocq string
    literals and converted with [js]. *)

From Stdlib Require Import List NArith Bool Arith Lia Sorted.
From Stdlib Require Import Strings.String Strings.Ascii.
Import ListNotations.

Local Open Scope N_scope.

(** ** JavaScript strings *)

Module JS.

(** A UTF-16 code unit, and a string. *)
Notation code_unit := N (only parsing).
Notation jsstring := (list N) (only parsing).

(** A source literal made of ASCII characters only. *)
Definition js (s : string) : jsstring :=
  map N_of_ascii (list_ascii_of_string s).

(** Named code units used by the source's patterns. *)
Definition SP : code_unit := 32.   (* space *)
Definition QUOT : code_unit := 34. (* double quote *)
Definition AMP : code_unit := 38.  (* ampersand *)
Definition LT : code_unit := 60.   (* less-than sign *)
Definition GT : code_unit := 62.   (* greater-than sign *)
Definition BACKQUOTE : code_unit := 96.
Definition nl : jsstring := [10]. (* line feed *)

(** Rocq string literals have no escape for the double quote.  In the
    literals converted with [jsq] a backquote stands for the double quote
    U+0022.  No string of the source contains a backquote: the templates are
    themselves delimited by backquotes. *)
Definition jsq (s : string) : jsstring :=
  map (fun c => if c =? BACKQUOTE then QUOT else c) (js s).

(** The class [\s] of ECMAScript regular expressions, which is also the set
    of code units removed by [String.prototype.trim]: WhiteSpace
    (TAB, VT, FF, SP, NBSP, ZWNBSP and the Unicode category Zs, as of
    Unicode 6.3 and later) and LineTerminator (LF, CR, LS, PS). *)
Definition is_space (c : code_unit) : bool :=
  ((9 <=? c) && (c <=? 13))
  || (c =? 32) || (c =? 160) || (c =? 5760)
  || ((8192 <=? c) && (c <=? 8202))
  || (c =? 8232) || (c =? 8233) || (c =? 8239) || (c =? 8287)
  || (c =? 12288) || (c =? 65279).

(** [String.prototype.trim]. *)
Fixpoint trimStart (s : jsstring) : jsstring :=
  match s with
  | [] => []
  | c :: t => if is_space c then trimStart t else s
  end.

Fixpoint trimEnd (s : jsstring) : jsstring :=
  match s with
  | [] => []
  | c :: t =>
      match trimEnd t with
      | [] => if is_space c then [] else [c]
      | r => c :: r
      end
  end.

Definition trim (s : jsstring) : jsstring := trimEnd (trimStart s).

(** [isPrefixOf pat s]: the literal [pat] matches at the start of [s]. *)
Fixpoint isPrefixOf (pat s : jsstring) : bool :=
  match pat, s with
  | [], _ => true
  | _ :: _, [] => false
  | p :: pat', c :: s' => (p =? c) && isPrefixOf pat' s'
  end.

(** [s.replace(/pat/g, rep)] for a literal, non-empty pattern [pat] and a
    replacement [rep] without [$] patterns.  The scan goes left to right;
    at a match the replacement is emitted and the scan resumes after the
    matched text ([skip] counts the code units of the current match that
    are still to be passed over). *)
Fixpoint replaceFrom (pat rep : jsstring) (skip : nat) (s : jsstring)
  : jsstring :=
  match s with
  | [] => []
  | c :: t =>
      match skip with
      | S k => replaceFrom pat rep k t
      | O =>
          if isPrefixOf pat s
          then rep ++ replaceFrom pat rep (Nat.pred (List.length pat)) t
          else c :: replaceFrom pat rep O t
      end
  end.

Definition replaceAll (pat rep s : jsstring) : jsstring :=
  replaceFrom pat rep O s.

(** [s.replace(/\s+/g, rep)]: every maximal run of whitespace is one match
    ([+] is greedy); [inRun] tells that the scan is inside a match whose
    replacement was already emitted. *)
Fixpoint replaceSpaceRuns (rep : jsstring) (inRun : bool) (s : jsstring)
  : jsstring :=
  match s with
  | [] => []
  | c :: t =>
      if is_space c
      then (if inRun then replaceSpaceRuns rep true t
            else rep ++ replaceSpaceRuns rep true t)
      else c :: replaceSpaceRuns rep false t
  end.

Definition replaceSpaces (rep s : jsstring) : jsstring :=
  replaceSpaceRuns rep false s.

(** [Array.prototype.join]. *)
Fixpoint join (sep : jsstring) (l : list jsstring) : jsstring :=
  match l with
  | [] => []
  | [x] => x
  | x :: t => x ++ sep ++ join sep t
  end.

(** [Array.prototype.slice(0, n)] for [0 <= n]. *)
Definition slice0 {A} (n : nat) (l : list A) : list A := firstn n l.

(** Errors thrown by the modelled code. *)
Inductive error := TypeError.

Inductive result (A : Type) :=
| Ok (a : A)
| Throw (e : error).
Arguments Ok {A} a.
Arguments Throw {A} e.

Definition bind {A B} (r : result A) (k : A -> result B) : result B :=
  match r with
  | Ok a => k a
  | Throw e => Throw e
  end.

(** [Array.prototype.reduce] without an initial value: the accumulator
    starts as element 0, the callback is first called at index 1, and an
    empty array is a TypeError. *)
Fixpoint reduceFrom {A} (cb : A -> A -> nat -> result A)
  (acc : A) (i : nat) (l : list A) : result A :=
  match l with
  | [] => Ok acc
  | x :: t => bind (cb acc x i) (fun acc' => reduceFrom cb acc' (S i) t)
  end.

Definition reduce {A} (cb : A -> A -> nat -> result A) (l : list A)
  : result A :=
  match l with
  | [] => Throw TypeError
  | x :: t => reduceFrom cb x 1 t
  end.

End JS.

Export JS.

Notation "x <- r ;; k" := (bind r (fun x => k))
  (at level 61, r at next level, right associativity).

(** ** The [ssml] tag function *)

(** The four replacements applied to a computed expression, in the order of
    the source. *)
Definition escape (input : jsstring) : jsstring :=
  replaceAll [QUOT] (js "&quot;")
    (replaceAll [GT] (js "&gt;")
       (replaceAll [LT] (js "&lt;")
          (replaceAll [AMP] (js "&amp;") input))).

(** The callback given to [reduce].  [inputs[i - 1]] is [undefined] past the
    end of [inputs], and calling [replace] on it is a TypeError. *)
Definition ssml_step (inputs : list jsstring) (out str : jsstring) (i : nat)
  : result jsstring :=
  match i with
  | O => Ok str
  | S j =>
      match nth_error inputs j with
      | Some input => Ok (out ++ escape input ++ str)
      | None => Throw TypeError
      end
  end.

(** The chain applied to the reduced string:
    trim, then the replacements of [/\s+/g] by one space, of [/ </g] by the
    less-than sign and of [/> /g] by the greater-than sign. *)
Definition normalize (out : jsstring) : jsstring :=
  replaceAll [GT; SP] [GT]
    (replaceAll [SP; LT] [LT]
       (replaceSpaces [SP] (trim out))).

Definition ssml (template : list jsstring) (inputs : list jsstring)
  : result jsstring :=
  out <- reduce (ssml_step inputs) template ;;
  Ok (normalize out).

(** ** The example catalog *)

(** A JavaScript object with string-valued own properties, in insertion
    order (the order in which [Object.keys] lists non-index keys). *)
Definition object := list (jsstring * jsstring).

(** The object literal [examples].  Every property is a tagged template
    without substitution: [ssml] receives the one cooked string and no
    input.  An exception in any of them would abort the initialisation. *)
Definition examples_init : result object :=
  doc_break <- ssml [jsq "
    <speak>
      Step 1, take a deep breath. <break time=`200ms` strength=`weak`/>
      Step 2, exhale.
    </speak>
  "] [] ;;
  doc_say_as <- ssml [jsq "
    <speak>
      This interprets `12345` normally.
      This interprets `<say-as interpret-as=`cardinal`>12345</say-as>` as a cardinal.
      This interprets `1` normally.
      This interprets `<say-as interpret-as=`ordinal`>1</say-as>` as an ordinal.
      This interprets `can` normally.
      This interprets `<say-as interpret-as=`characters`>can</say-as>` as characters.
      This interprets `5+1/2` normally.
      This interprets `<say-as interpret-as=`fraction`>5+1/2</say-as>` as a fraction.
      This interprets `censored` normally.
      This interprets `<say-as interpret-as=`expletive`>censored</say-as>` as an expletive.
      This interprets `10 foot` normally.
      This interprets `<say-as interpret-as=`unit`>10 foot</say-as>` as a unit.
      This interprets `abcdefg` normally.
      This interprets `<say-as interpret-as=`verbatim`>abcdefg</say-as>` as verbatim.
      This interprets `1960-09-10` normally.
      This interprets `<say-as interpret-as=`date` format=`ymd`>1960-09-10</say-as>` as a date.
      This interprets `2:30pm` normally.
      This interprets `<say-as interpret-as=`time` format=`hms12`>2:30pm</say-as>` as a time.
      This interprets `(781) 771-7777` normally.
      This interprets `<say-as interpret-as=`telephone` format=`1`>
        (781) 771-7777
      </say-as>` as a telephone number.
    </speak>
  "] [] ;;
  doc_audio <- ssml [jsq "
    <speak>
      <audio src=`https://actions.google.com/sounds/v1/animals/cat_purr_close.ogg`>
        <desc>Sound of a cat purring.</desc>
        Audio resource for a cat purring failed to load.
      </audio>
    </speak>
  "] [] ;;
  doc_paragraph <- ssml [jsq "
    <speak>
      <p>
        <s>This is sentence one.</s>
        <s>This is sentence two.</s>
      </p>
    </speak>
  "] [] ;;
  doc_sub <- ssml [jsq "
    <speak>
      This is speaking `W3C` normally.
      This is speaking `<sub alias=`World Wide Web Consortium`>W3C</sub>` using the sub tag.
    </speak>
  "] [] ;;
  doc_prosody <- ssml [jsq "
    <speak>
      <prosody rate=`100%` pitch=`-2st`>
        My name is <prosody rate=`slow`>Wonder Woman</prosody>.
      </prosody>
      <break time=`0.5s` />
      <prosody pitch=`+20st`>Hi, my name is lowly worm.</prosody>
      <prosody pitch=`-10st`>Hi, my name is huckleberry cat.</prosody>
      <break time=`1.5s` />Was that fun?
      <prosody rate=`x-fast`>Hi I'm speaking fast.</prosody>
      <prosody rate=`x-slow`>I'm speaking slow.</prosody>
      <prosody volume=`soft`>I'm speaking softly.</prosody>
      <prosody volume=`x-loud`>I'm speaking loud</prosody>
      <prosody pitch=`+20st`>I'm speaking high.</prosody>
      <prosody pitch=`-20st`>I'm speaking deep.</prosody>
    </speak>
  "] [] ;;
  doc_emphasis <- ssml [jsq "
    <speak>
      I would like to emphasize the importance of SSML.
      I told you to pick up those toys an hour ago.
      <emphasis>I told you to pick up those toys an hour ago.</emphasis>
      <emphasis level=`strong`>I told you to pick up those toys an hour ago.</emphasis>
      <emphasis level=`moderate`>I told you to pick up those toys an hour ago.</emphasis>
      <emphasis level=`reduced`>I told you to pick up those toys an hour ago.</emphasis>
      <emphasis level=`none`>I told you to pick up those toys an hour ago.</emphasis>
    </speak>
  "] [] ;;
  doc_speed <- ssml [jsq "
    <speak>
      This is without prosody.
      <prosody rate=`100%`>This is speaking at 100% rate.</prosody>
      <prosody rate=`150%`>This is speaking at 150% rate.</prosody>
      <prosody rate=`foo`>This is speaking at normal rate.</prosody>
      <prosody rate=`200%`>This is speaking at 200% rate.</prosody>
      <prosody rate=`medium`>This is speaking at medium rate.</prosody>
      <prosody rate=`300%`>This is speaking at 300% rate.</prosody>
      <prosody rate=`default`>This is speaking at default rate.</prosody>
      <prosody rate=`75%`>This is speaking at 75% rate.</prosody>
      <prosody rate=`50%`>This is speaking at 50% rate.</prosody>
      <prosody rate=`25%`>This is speaking at 25% rate.</prosody>
      <prosody rate=`10%`>This is speaking at 10% rate.</prosody>
    </speak>
  "] [] ;;
  doc_volume <- ssml [jsq "
    <speak>
      This is without prosody.
      <prosody volume=`+5dB`>This is speaking at +5dB volume.</prosody>
      <prosody volume=`100%`>This is speaking at 100% volume.</prosody>
      <prosody volume=`loud`>This is speaking at loud volume.</prosody>
      <prosody volume=`foo`>This is speaking at normal volume.</prosody>
      <prosody volume=`+10dB`>This is speaking at +10dB volume.</prosody>
      <prosody volume=`medium`>This is speaking at medium volume.</prosody>
      <prosody volume=`x-loud`>This is speaking at x-loud volume.</prosody>
      <prosody volume=`default`>This is speaking at default volume.</prosody>
      <prosody volume=`-5dB`>This is speaking at -5dB volume.</prosody>
      <prosody volume=`-10dB`>This is speaking at -10dB volume.</prosody>
      <prosody volume=`soft`>This is speaking at soft volume.</prosody>
      <prosody volume=`x-soft`>This is speaking at x-soft volume.</prosody>
    </speak>
  "] [] ;;
  doc_pitch <- ssml [jsq "
    <speak>
      This is without prosody.
      <prosody pitch=`+6st`>This is speaking at +6 semitones pitch.</prosody>
      <prosody pitch=`foo`>This is speaking at normal pitch.</prosody>
      <prosody pitch=`high`>This is speaking at high pitch.</prosody>
      <prosody pitch=`+0st`>This is speaking at +0 semitones pitch.</prosody>
      <prosody pitch=`medium`>This is speaking at medium pitch.</prosody>
      <prosody pitch=`default`>This is speaking at default pitch.</prosody>
      <prosody pitch=`+200%`>This is speaking at +200% pitch.</prosody>
      <prosody pitch=`+12st`>This is speaking at +12 semitones pitch.</prosody>
      <prosody pitch=`x-high`>This is speaking at x-high pitch.</prosody>
      <prosody pitch=`-6st`>This is speaking at -6 semitones pitch.</prosody>
      <prosody pitch=`low`>This is speaking at low pitch.</prosody>
      <prosody pitch=`-12st`>This is speaking at -12 semitones pitch.</prosody>
      <prosody pitch=`x-low`>This is speaking at x-low pitch.</prosody>
    </speak>
  "] [] ;;
  Ok [ (js "break", doc_break);
       (js "say-as", doc_say_as);
       (js "audio", doc_audio);
       (js "paragraph", doc_paragraph);
       (js "sub", doc_sub);
       (js "prosody", doc_prosody);
       (js "emphasis", doc_emphasis);
       (js "speed", doc_speed);
       (js "volume", doc_volume);
       (js "pitch", doc_pitch) ].

Definition examples : object :=
  match examples_init with
  | Ok o => o
  | Throw _ => []
  end.

(** Values that reach the response builder: a string, [undefined], or a
    member inherited from [Object.prototype]. *)
Inductive value :=
| Undefined
| Str (s : jsstring)
| Inherited (name : jsstring).

Fixpoint jsstring_eqb (a b : jsstring) : bool :=
  match a, b with
  | [], [] => true
  | x :: a', y :: b' => (x =? y) && jsstring_eqb a' b'
  | _, _ => false
  end.

Fixpoint own_property (o : object) (k : jsstring) : option jsstring :=
  match o with
  | [] => None
  | (k', v) :: o' => if jsstring_eqb k' k then Some v else own_property o' k
  end.

(** The property names of [Object.prototype], which every object literal
    inherits. *)
Definition object_prototype_names : list jsstring :=
  map js [ "constructor"; "__defineGetter__"; "__defineSetter__";
           "hasOwnProperty"; "__lookupGetter__"; "__lookupSetter__";
           "isPrototypeOf"; "propertyIsEnumerable"; "toString"; "valueOf";
           "__proto__"; "toLocaleString" ]%string.

(** Property access [o[k]] on an object literal. *)
Definition get (o : object) (k : jsstring) : value :=
  match own_property o k with
  | Some v => Str v
  | None =>
      if existsb (jsstring_eqb k) object_prototype_names
      then Inherited k
      else Undefined
  end.

(** [Object.keys]. *)
Definition keys (o : object) : list jsstring := map fst o.

(** ** Actions, parameters and responses *)

Module Actions.
Definition TELL_EXAMPLE : jsstring := js "tell.example".
Definition UNRECOGNIZED_DEEP_LINK : jsstring := js "input.unknown".
Definition WELCOME : jsstring := js "input.welcome".
End Actions.

Module Parameters.
Definition ELEMENT : jsstring := js "element".
End Parameters.

Module baseResponses.
Definition askExample : jsstring :=
  js "Ask me for an example of a SSML element.".
End baseResponses.

Definition elements : list jsstring := keys examples.

(** How a template literal prints an array element that may be missing. *)
Definition toString (v : option jsstring) : jsstring :=
  match v with
  | Some s => s
  | None => js "undefined"
  end.

Module completeResponses.

Definition examplesList : jsstring :=
  (js "You can ask me about "
     ++ join (js ", ") (slice0 (List.length elements - 1) elements))
  ++ (js ", and "
        ++ toString (nth_error elements (List.length elements - 1))
        ++ js ".").

Definition didNotUnderstand : jsstring :=
  js "Sorry, I didn't understand you. " ++ baseResponses.askExample ++ js ".".

Definition welcome : jsstring :=
  (js "Welcome! " ++ baseResponses.askExample ++ js " ")
  ++ jsq "You can say `give me an example of the prosody element`.".

Definition leadToExample (element : jsstring) : jsstring :=
  js "Ok, here's an SSML example of " ++ element ++ js ".".

End completeResponses.

(** ** The conversational SDK, as far as the handlers use it

    [actions-on-google] is an external collaborator.  The model keeps the
    segments that [addSimpleResponse] accepts, in order, and whether the
    reply was sent with [ask] (the conversation stays open for user input)
    or with [tell] (the conversation ends). *)

Module Sdk.

Record RichResponse := { items : list value }.

Definition buildRichResponse : RichResponse := {| items := [] |}.

(** [!v] for a value handed to the builder: [undefined] and the empty
    string are falsy, a non-empty string and an inherited member are not. *)
Definition falsy (v : value) : bool :=
  match v with
  | Undefined => true
  | Str [] => true
  | Str (_ :: _) => false
  | Inherited _ => false
  end.

(** [addSimpleResponse] logs an error and returns the builder unchanged when
    its argument is falsy; otherwise it appends a segment.  (It also
    refuses a third simple response; no handler adds more than two.) *)
Definition addSimpleResponse (v : value) (r : RichResponse) : RichResponse :=
  if falsy v then r else {| items := items r ++ [v] |}.

Record Response := {
  richResponse : RichResponse;
  expectUserResponse : bool
}.

(** The request as the SDK exposes it: the action name and the named
    parameters ([getArgument] gives [null], here [None], for a missing
    one). *)
Record Request := {
  intent : jsstring;
  arguments : list (jsstring * jsstring)
}.

Record DialogflowApp := {
  request : Request;
  response : option Response
}.

Definition newApp (r : Request) : DialogflowApp :=
  {| request := r; response := None |}.

Definition getArgument (app : DialogflowApp) (name : jsstring)
  : option jsstring :=
  own_property (arguments (request app)) name.

Definition ask (r : RichResponse) (app : DialogflowApp) : DialogflowApp :=
  {| request := request app;
     response := Some {| richResponse := r; expectUserResponse := true |} |}.

Definition tell (r : RichResponse) (app : DialogflowApp) : DialogflowApp :=
  {| request := request app;
     response := Some {| richResponse := r; expectUserResponse := false |} |}.

Definition handler := DialogflowApp -> DialogflowApp.

(** A JavaScript [Map] from action names to handlers: [set] replaces the
    value of a key that is present and appends a new key otherwise. *)
Definition Map := list (jsstring * handler).

Fixpoint Map_set (k : jsstring) (h : handler) (m : Map) : Map :=
  match m with
  | [] => [(k, h)]
  | (k', h') :: m' =>
      if jsstring_eqb k' k then (k, h) :: m' else (k', h') :: Map_set k h m'
  end.

Fixpoint Map_get (m : Map) (k : jsstring) : option handler :=
  match m with
  | [] => None
  | (k', h) :: m' => if jsstring_eqb k' k then Some h else Map_get m' k
  end.

(** [handleRequest] runs the handler registered for the request's action;
    [None] when no handler is registered. *)
Definition handleRequest (m : Map) (app : DialogflowApp)
  : option DialogflowApp :=
  match Map_get m (intent (request app)) with
  | Some h => Some (h app)
  | None => None
  end.

End Sdk.

Export Sdk.

(** ** The action handlers *)

Definition welcomeHandler : handler := fun app =>
  let richResponse :=
    addSimpleResponse (Str completeResponses.examplesList)
      (addSimpleResponse (Str completeResponses.welcome)
         buildRichResponse) in
  ask richResponse app.

(** [getArgument] gives a string or [null]; [!element] holds for [null] and
    for the empty string. *)
Definition tellExampleHandler : handler := fun app =>
  match getArgument app Parameters.ELEMENT with
  | Some ((_ :: _) as element) =>
      let richResponse :=
        addSimpleResponse (get examples element)
          (addSimpleResponse
             (Str (completeResponses.leadToExample element))
             buildRichResponse) in
      ask richResponse app
  | _ =>
      (* the branch guarded by [!element] *)
      let richResponse :=
        addSimpleResponse (Str completeResponses.examplesList)
          (addSimpleResponse (Str completeResponses.didNotUnderstand)
             buildRichResponse) in
      ask richResponse app
  end.

Definition unrecognizedHandler : handler := fun app =>
  let richResponse :=
    addSimpleResponse (Str completeResponses.examplesList)
      (addSimpleResponse (Str completeResponses.didNotUnderstand)
         buildRichResponse) in
  ask richResponse app.

Definition actionMap : Map :=
  Map_set Actions.UNRECOGNIZED_DEEP_LINK unrecognizedHandler
    (Map_set Actions.TELL_EXAMPLE tellExampleHandler
       (Map_set Actions.WELCOME welcomeHandler [])).

(** The entry point: one request, one dispatch. *)
Definition ssmlExamples (r : Request) : option DialogflowApp :=
  handleRequest actionMap (newApp r).

(** ** What a dispatch sends back *)

(** The reply of a dispatch, as the spec names it: the segments in order. *)
Definition reply (a : option DialogflowApp) : option (list value) :=
  match a with
  | Some app =>
      match response app with
      | Some r => Some (items (richResponse r))
      | None => None
      end
  | None => None
  end.

(** Whether the dispatch left the conversation open for user input. *)
Definition continues (a : option DialogflowApp) : bool :=
  match a with
  | Some app =>
      match response app with
      | Some r => expectUserResponse r
      | None => false
      end
  | None => false
  end.

(** * Definitions used by the statements *)

(** ** Observations on strings *)

(** Number of positions of [s] at which [pat] occurs. *)
Fixpoint occurrences (pat s : jsstring) : nat :=
  match s with
  | [] => 0
  | _ :: t => ((if isPrefixOf pat s then 1 else 0) + occurrences pat t)%nat
  end.

(** Position of the first occurrence of [pat] in [s] ([String.indexOf]). *)
Fixpoint indexOf (pat s : jsstring) : option nat :=
  match s with
  | [] => None
  | _ :: t =>
      if isPrefixOf pat s then Some O
      else option_map S (indexOf pat t)
  end.

Definition endsWith (s suffix : jsstring) : Prop :=
  exists front, s = front ++ suffix.

(** ** Topics and requests *)

(** The names before the last one, and the last one. *)
Definition leading_topics : list jsstring := removelast elements.
Definition last_topic : jsstring := last elements [].

(** The topic parameter of a request, as the tell-example handler reads
    it. *)
Definition topic_parameter (r : Request) : option jsstring :=
  getArgument (newApp r) Parameters.ELEMENT.

Definition not_understood_reply : list value :=
  [ Str completeResponses.didNotUnderstand;
    Str completeResponses.examplesList ].

Definition request_without_topic : Request :=
  {| intent := Actions.TELL_EXAMPLE; arguments := [] |}.

Definition request_empty_topic : Request :=
  {| intent := Actions.TELL_EXAMPLE;
     arguments := [(Parameters.ELEMENT, [])] |}.

Definition request_unrecognized : Request :=
  {| intent := Actions.UNRECOGNIZED_DEEP_LINK; arguments := [] |}.

Definition request_prosody : Request :=
  {| intent := Actions.TELL_EXAMPLE;
     arguments := [(Parameters.ELEMENT, js "prosody")] |}.

Definition request_unknown_topic : Request :=
  {| intent := Actions.TELL_EXAMPLE;
     arguments := [(Parameters.ELEMENT, js "whisper")] |}.

(** ** Escaping, as the spec words it *)

(** The substitution of the spec, on one code unit. *)
Definition entity (c : code_unit) : jsstring :=
  if c =? AMP then js "&amp;"
  else if c =? LT then js "&lt;"
  else if c =? GT then js "&gt;"
  else if c =? QUOT then js "&quot;"
  else [c].

(** The escaping of the spec: every code unit replaced at once. *)
Definition escape_simultaneous (input : jsstring) : jsstring :=
  flat_map entity input.

(** The four code units that have an entity. *)
Definition reserved (c : code_unit) : bool :=
  (c =? AMP) || (c =? LT) || (c =? GT) || (c =? QUOT).

(** ** Whitespace normalization, as the spec words it *)

Definition starts_with (x : code_unit) (s : jsstring) : bool :=
  match s with
  | c :: _ => c =? x
  | [] => false
  end.

Definition ends_with (x : code_unit) (s : jsstring) : bool :=
  match s with
  | [] => false
  | _ :: _ => last s 0 =? x
  end.

Definition starts_visible (s : jsstring) : bool :=
  match s with
  | c :: _ => negb (is_space c)
  | [] => false
  end.

Definition visible_only (s : jsstring) : bool :=
  forallb (fun c => negb (is_space c)) s.

(** The code units of a string that are not whitespace. *)
Definition visible (s : jsstring) : jsstring :=
  filter (fun c => negb (is_space c)) s.

(** The maximal runs of non-whitespace code units of a string, in order. *)
Fixpoint words (s : jsstring) : list jsstring :=
  match s with
  | [] => []
  | c :: t =>
      if is_space c then words t
      else if starts_visible t then
        match words t with
        | w :: ws => (c :: w) :: ws
        | [] => [[c]]
        end
      else [c] :: words t
  end.

(** The words in order, with [sep w w'] between neighbours [w] and [w']. *)
Fixpoint glue_with (sep : jsstring -> jsstring -> jsstring)
  (ws : list jsstring) : jsstring :=
  match ws with
  | [] => []
  | w :: rest =>
      match rest with
      | [] => w
      | w' :: _ => w ++ sep w w' ++ glue_with sep rest
      end
  end.

Definition space_separator (w w' : jsstring) : jsstring := [SP].

Definition lt_separator (w w' : jsstring) : jsstring :=
  if starts_with LT w' then [] else [SP].

(** One space between two words, except none before a word that starts with
    the less-than sign and none after a word that ends with the greater-than
    sign. *)
Definition tag_separator (w w' : jsstring) : jsstring :=
  if ends_with GT w || starts_with LT w' then [] else [SP].

(** The normalization as the spec words it: leading and trailing whitespace
    dropped, every interior run of whitespace turned into one space, and
    that space dropped before a less-than sign and after a greater-than
    sign. *)
Definition normalize_spec (s : jsstring) : jsstring :=
  glue_with tag_separator (words s).

(** ** Whitespace-normal form, as decidable predicates *)

Definition no_leading_space (s : jsstring) : bool :=
  match s with
  | c :: _ => negb (is_space c)
  | [] => true
  end.

Fixpoint no_trailing_space (s : jsstring) : bool :=
  match s with
  | [] => true
  | c :: t =>
      match t with
      | [] => negb (is_space c)
      | _ :: _ => no_trailing_space t
      end
  end.

Definition only_plain_spaces (s : jsstring) : bool :=
  forallb (fun c => negb (is_space c) || (c =? SP)) s.

(** No two neighbours [a], [b] of [s] satisfy [bad a b]. *)
Fixpoint no_adjacent (bad : code_unit -> code_unit -> bool) (s : jsstring)
  : bool :=
  match s with
  | [] => true
  | a :: t =>
      match t with
      | [] => true
      | b :: _ => negb (bad a b) && no_adjacent bad t
      end
  end.

Definition space_space (a b : code_unit) : bool := is_space a && is_space b.
Definition space_lt (a b : code_unit) : bool := is_space a && (b =? LT).
Definition gt_space (a b : code_unit) : bool := (a =? GT) && is_space b.

(** Trimmed, with plain spaces as only whitespace, never two in a row. *)
Definition single_spaced (s : jsstring) : bool :=
  no_leading_space s && no_trailing_space s && only_plain_spaces s
  && no_adjacent space_space s.

(** Moreover without a space before a less-than sign or after a
    greater-than sign. *)
Definition whitespace_normal (s : jsstring) : bool :=
  single_spaced s
  && no_adjacent space_lt s
  && no_adjacent gt_space s.

(** A word: not empty, and without whitespace. *)
Definition is_word (w : jsstring) : Prop :=
  w <> [] /\ visible_only w = true.

(** A template written over several indented lines, with one gap. *)
Definition indented_template : list jsstring :=
  [ nl ++ js "  <speak>" ++ nl ++ nl ++ js "    a  > ";
    js " < b" ++ nl ++ js "  </speak>" ++ nl ].

(** ** Further definitions used by the statements *)

(** Number of occurrences of a code unit in a string. *)
Definition count (c : code_unit) (s : jsstring) : nat :=
  count_occ N.eq_dec s c.

(** The three code units that delimit markup: less-than sign, greater-than
    sign and double quote. *)
Definition markup_sign (c : code_unit) : bool :=
  (c =? LT) || (c =? GT) || (c =? QUOT).

(** The first fragment followed, for every later fragment, by the escaped
    value of its gap and the fragment. *)
Definition interleaved (str0 : jsstring) (strs inputs : list jsstring)
  : jsstring :=
  str0 ++ List.concat
            (map (fun p => escape (fst p) ++ snd p) (combine inputs strs)).

(** The expression of [completeResponses.examplesList], for any list of
    keys in place of [elements]. *)
Definition examplesList_for (names : list jsstring) : jsstring :=
  (js "You can ask me about "
     ++ join (js ", ") (slice0 (List.length names - 1) names))
  ++ (js ", and "
        ++ toString (nth_error names (List.length names - 1))
        ++ js ".").

Definition request_welcome : Request :=
  {| intent := Actions.WELCOME;
     arguments := [(Parameters.ELEMENT, js "prosody")] |}.

(** * Properties *)

(** ** The model of the global replacement *)

Lemma isPrefixOf_app (pat s : jsstring) : isPrefixOf pat (pat ++ s) = true.
Proof.
  induction pat as [|p pat IH]; [reflexivity |].
  cbn [app isPrefixOf]. rewrite N.eqb_refl. exact IH.
Qed.

Lemma replaceFrom_skip (pat rep l s : jsstring) :
  replaceFrom pat rep (List.length l) (l ++ s) = replaceFrom pat rep O s.
Proof.
  induction l as [|c l IH]; [reflexivity |]. exact IH.
Qed.

(** At a match the replacement is emitted and the scan resumes after the
    matched text. *)
Lemma replaceAll_match (pat rep s : jsstring) :
  pat <> [] ->
  replaceAll pat rep (pat ++ s) = rep ++ replaceAll pat rep s.
Proof.
  intros Hne. unfold replaceAll.
  destruct pat as [|p pat]; [congruence |].
  pose proof (isPrefixOf_app (p :: pat) s) as Hm.
  cbn [app] in *. cbn [replaceFrom]. rewrite Hm.
  cbn [List.length Nat.pred]. rewrite replaceFrom_skip. reflexivity.
Qed.

(** Where the pattern does not match, the code unit is kept and the scan
    moves on by one. *)
Lemma replaceAll_no_match (pat rep : jsstring) (c : code_unit) (s : jsstring) :
  isPrefixOf pat (c :: s) = false ->
  replaceAll pat rep (c :: s) = c :: replaceAll pat rep s.
Proof.
  intros Hm. unfold replaceAll. cbn [replaceFrom]. rewrite Hm. reflexivity.
Qed.

(** ** The example of the function's documentation *)

Example ssml_doc_example :
  ssml [JS.nl ++ js "  <speak>" ++ JS.nl ++ js "    ";
        JS.nl ++ js "  </speak>" ++ JS.nl]
       [[QUOT] ++ js "1 + 1 > 1" ++ [QUOT]]
  = Ok (js "<speak>&quot;1 + 1 &gt; 1&quot;</speak>").
Proof. vm_compute. reflexivity. Qed.

(** ** The catalog is built without error *)

Lemma examples_init_ok : examples_init = Ok examples.
Proof. vm_compute. reflexivity. Qed.

Lemma elements_eq :
  elements = map js [ "break"; "say-as"; "audio"; "paragraph"; "sub";
                      "prosody"; "emphasis"; "speed"; "volume";
                      "pitch" ]%string.
Proof. vm_compute. reflexivity. Qed.

(** The first document of the catalog, as normalized at initialisation. *)
Example examples_break :
  get examples (js "break")
  = Str (jsq "<speak>Step 1, take a deep breath.<break time=`200ms` strength=`weak`/>Step 2, exhale.</speak>").
Proof. vm_compute. reflexivity. Qed.

Lemma jsstring_eqb_eq (a b : jsstring) : jsstring_eqb a b = true <-> a = b.
Proof.
  revert b; induction a as [|x a IH]; intros [|y b]; simpl;
    try (split; [discriminate | congruence]); try tauto.
  rewrite andb_true_iff, N.eqb_eq, IH. split.
  - intros [-> ->]; reflexivity.
  - intros H; injection H; auto.
Qed.

(** ** Responses *)

(** C10: [didNotUnderstand] ends with two periods, because a period follows
    the [askExample] sentence which already ends with one; [welcome], built
    from the same sentence without that extra period, ends with exactly one
    period. *)
Theorem didNotUnderstand_double_period :
  endsWith baseResponses.askExample (js ".")
  /\ completeResponses.didNotUnderstand
     = js "Sorry, I didn't understand you. "
         ++ baseResponses.askExample ++ js "."
  /\ endsWith completeResponses.didNotUnderstand (js "of a SSML element..")
  /\ endsWith completeResponses.welcome (js ".")
  /\ ~ endsWith completeResponses.welcome (js "..")
  /\ occurrences baseResponses.askExample completeResponses.welcome = 1%nat.
Proof.
  split; [| split; [| split; [| split; [| split]]]].
  - exists (js "Ask me for an example of a SSML element"). reflexivity.
  - reflexivity.
  - exists (js "Sorry, I didn't understand you. Ask me for an example ").
    reflexivity.
  - exists (removelast completeResponses.welcome). vm_compute. reflexivity.
  - intros [front H].
    apply (f_equal (@rev code_unit)) in H. rewrite rev_app_distr in H.
    vm_compute in H. discriminate H.
  - vm_compute. reflexivity.
Qed.

(** C5: the topic-list text holds every topic name of the catalog exactly
    once, in the order of the catalog's keys: the names but the last joined
    by a comma and a space, then a comma, the word and, the last name, and a
    final period. *)
Theorem examplesList_enumerates_topics :
  elements = keys examples
  /\ NoDup elements
  /\ elements = leading_topics ++ [last_topic]
  /\ completeResponses.examplesList
     = js "You can ask me about "
         ++ join (js ", ") leading_topics
         ++ js ", and " ++ last_topic ++ js "."
  /\ Forall (fun topic =>
               occurrences topic completeResponses.examplesList = 1%nat)
       elements
  /\ (exists positions,
         map (fun topic => indexOf topic completeResponses.examplesList)
           elements
         = map Some positions
         /\ StronglySorted lt positions)
  /\ endsWith completeResponses.examplesList (js ".")
  /\ completeResponses.examplesList
     = js "You can ask me about break, say-as, audio, paragraph, sub, prosody, emphasis, speed, volume, and pitch.".
Proof.
  split; [reflexivity |].
  split.
  { rewrite elements_eq. apply NoDup_count_occ' with
      (decA := list_eq_dec N.eq_dec).
    intros x Hx. simpl in Hx.
    repeat (destruct Hx as [<- | Hx]; [vm_compute; reflexivity |]).
    contradiction. }
  split; [vm_compute; reflexivity |].
  split; [vm_compute; reflexivity |].
  split.
  { rewrite elements_eq.
    repeat (constructor; [vm_compute; reflexivity |]). constructor. }
  split.
  { exists [21; 28; 36; 43; 54; 59; 68; 78; 85; 97]%nat. split.
    - vm_compute. reflexivity.
    - repeat (constructor; [| repeat (constructor; try lia)]). constructor. }
  split.
  { exists (removelast completeResponses.examplesList).
    vm_compute. reflexivity. }
  vm_compute. reflexivity.
Qed.

(** ** Dispatch *)

Lemma actionMap_welcome :
  Map_get actionMap Actions.WELCOME = Some welcomeHandler.
Proof. reflexivity. Qed.

Lemma actionMap_tell_example :
  Map_get actionMap Actions.TELL_EXAMPLE = Some tellExampleHandler.
Proof. reflexivity. Qed.

Lemma actionMap_unrecognized :
  Map_get actionMap Actions.UNRECOGNIZED_DEEP_LINK = Some unrecognizedHandler.
Proof. reflexivity. Qed.

Lemma dispatch_welcome (r : Request) :
  intent r = Actions.WELCOME ->
  ssmlExamples r = Some (welcomeHandler (newApp r)).
Proof.
  intros H. unfold ssmlExamples, handleRequest. cbn [request newApp].
  rewrite H, actionMap_welcome. reflexivity.
Qed.

Lemma dispatch_tell_example (r : Request) :
  intent r = Actions.TELL_EXAMPLE ->
  ssmlExamples r = Some (tellExampleHandler (newApp r)).
Proof.
  intros H. unfold ssmlExamples, handleRequest. cbn [request newApp].
  rewrite H, actionMap_tell_example. reflexivity.
Qed.

Lemma dispatch_unrecognized (r : Request) :
  intent r = Actions.UNRECOGNIZED_DEEP_LINK ->
  ssmlExamples r = Some (unrecognizedHandler (newApp r)).
Proof.
  intros H. unfold ssmlExamples, handleRequest. cbn [request newApp].
  rewrite H, actionMap_unrecognized. reflexivity.
Qed.

Lemma tell_example_no_topic (r : Request) :
  topic_parameter r = None \/ topic_parameter r = Some [] ->
  tellExampleHandler (newApp r)
  = ask {| items := not_understood_reply |} (newApp r).
Proof.
  unfold topic_parameter, tellExampleHandler.
  intros [H | H]; rewrite H; reflexivity.
Qed.

Lemma addSimpleResponse_text (text : jsstring) (r : RichResponse) :
  text <> [] ->
  addSimpleResponse (Str text) r = {| items := items r ++ [Str text] |}.
Proof.
  intros H. destruct text as [|c t]; [congruence | reflexivity].
Qed.

Lemma tell_example_topic (r : Request) (element : jsstring) :
  topic_parameter r = Some element -> element <> [] ->
  tellExampleHandler (newApp r)
  = ask (addSimpleResponse (get examples element)
           {| items := [ Str (completeResponses.leadToExample element) ] |})
      (newApp r).
Proof.
  unfold topic_parameter, tellExampleHandler. intros H Hne. rewrite H.
  destruct element as [|c t]; [congruence | reflexivity].
Qed.

(** C6: a tell-example dispatch whose topic parameter is absent or the empty
    string replies with exactly two segments, the apology and then the topic
    list, and that reply is the one of the unrecognized-input dispatch. *)
Theorem tell_example_without_topic_not_understood (r r' : Request) :
  intent r = Actions.TELL_EXAMPLE ->
  topic_parameter r = None \/ topic_parameter r = Some [] ->
  intent r' = Actions.UNRECOGNIZED_DEEP_LINK ->
  reply (ssmlExamples r)
  = Some [ Str completeResponses.didNotUnderstand;
           Str completeResponses.examplesList ]
  /\ reply (ssmlExamples r) = reply (ssmlExamples r').
Proof.
  intros Hi Ht Hi'.
  rewrite (dispatch_tell_example r Hi), (dispatch_unrecognized r' Hi').
  rewrite (tell_example_no_topic r Ht). split; reflexivity.
Qed.

Lemma tell_example_without_topic_witness :
  (reply (ssmlExamples request_without_topic)
   = Some [ Str completeResponses.didNotUnderstand;
            Str completeResponses.examplesList ]
   /\ reply (ssmlExamples request_without_topic)
      = reply (ssmlExamples request_unrecognized))
  /\ (reply (ssmlExamples request_empty_topic)
      = Some [ Str completeResponses.didNotUnderstand;
               Str completeResponses.examplesList ]
      /\ reply (ssmlExamples request_empty_topic)
         = reply (ssmlExamples request_unrecognized)).
Proof.
  split.
  - apply (tell_example_without_topic_not_understood
             request_without_topic request_unrecognized).
    + reflexivity.
    + left. reflexivity.
    + reflexivity.
  - apply (tell_example_without_topic_not_understood
             request_empty_topic request_unrecognized).
    + reflexivity.
    + right. reflexivity.
    + reflexivity.
Defined.

(** C9: the dispatch of each of the three intents, whatever the request
    carries, ends by expecting further user input. *)
Theorem every_dispatch_expects_input (r : Request) :
  intent r = Actions.WELCOME
  \/ intent r = Actions.TELL_EXAMPLE
  \/ intent r = Actions.UNRECOGNIZED_DEEP_LINK ->
  exists app resp,
    ssmlExamples r = Some app
    /\ response app = Some resp
    /\ expectUserResponse resp = true.
Proof.
  intros [H | [H | H]].
  - rewrite (dispatch_welcome r H). eexists. eexists.
    split; [reflexivity |]. split; reflexivity.
  - rewrite (dispatch_tell_example r H). unfold tellExampleHandler.
    destruct (getArgument (newApp r) Parameters.ELEMENT) as [[|c t]|];
      eexists; eexists; (split; [reflexivity |]); split; reflexivity.
  - rewrite (dispatch_unrecognized r H). eexists. eexists.
    split; [reflexivity |]. split; reflexivity.
Qed.

Lemma every_dispatch_expects_input_witness :
  exists app resp,
    ssmlExamples request_prosody = Some app
    /\ response app = Some resp
    /\ expectUserResponse resp = true.
Proof.
  apply (every_dispatch_expects_input request_prosody).
  right. left. reflexivity.
Defined.

Lemma own_property_not_key (o : object) (k : jsstring) :
  ~ In k (keys o) -> own_property o k = None.
Proof.
  induction o as [|[k' v] o IH]; [reflexivity |].
  cbn [keys map fst In own_property]. intros H.
  destruct (jsstring_eqb k' k) eqn:E.
  - apply jsstring_eqb_eq in E. tauto.
  - apply IH. unfold keys. tauto.
Qed.

Lemma get_not_own (o : object) (k : jsstring) :
  own_property o k = None -> forall doc, get o k <> Str doc.
Proof.
  intros H doc. unfold get. rewrite H.
  destruct (existsb (jsstring_eqb k) object_prototype_names); discriminate.
Qed.

(** An access to a name of [Object.prototype] gives the inherited member,
    not [undefined]. *)
Example get_inherited :
  get examples (js "toString") = Inherited (js "toString").
Proof. vm_compute. reflexivity. Qed.

Lemma whisper_not_a_topic : ~ In (js "whisper") elements.
Proof.
  rewrite elements_eq. intros H. simpl in H.
  repeat (destruct H as [H | H]; [discriminate H |]). exact H.
Qed.

Lemma whisper_not_inherited : ~ In (js "whisper") object_prototype_names.
Proof.
  intros H. unfold object_prototype_names in H. simpl in H.
  repeat (destruct H as [H | H]; [discriminate H |]). exact H.
Qed.

Lemma get_undefined (o : object) (k : jsstring) :
  ~ In k (keys o) -> ~ In k object_prototype_names -> get o k = Undefined.
Proof.
  intros Hkey Hproto. unfold get.
  rewrite (own_property_not_key o k Hkey).
  destruct (existsb (jsstring_eqb k) object_prototype_names) eqn:E;
    [| reflexivity].
  apply existsb_exists in E. destruct E as [n [Hn En]].
  apply jsstring_eqb_eq in En. subst n. contradiction.
Qed.

(** C1, as stated, fails: for the topic [whisper], which is present,
    non-empty and not a key of the catalog, the reply is the lead-in for
    that name alone (the catalog access gives [undefined], which the
    builder does not take), not the apology and the topic list. *)
Lemma unknown_topic_not_treated_as_not_understood :
  intent request_unknown_topic = Actions.TELL_EXAMPLE
  /\ topic_parameter request_unknown_topic = Some (js "whisper")
  /\ js "whisper" <> []
  /\ ~ In (js "whisper") elements
  /\ reply (ssmlExamples request_unknown_topic)
     = Some [ Str (js "Ok, here's an SSML example of whisper.") ]
  /\ reply (ssmlExamples request_unknown_topic)
     <> Some [ Str completeResponses.didNotUnderstand;
               Str completeResponses.examplesList ].
Proof.
  split; [reflexivity |]. split; [reflexivity |].
  split; [discriminate |].
  split; [exact whisper_not_a_topic |].
  assert (E : reply (ssmlExamples request_unknown_topic)
              = Some [ Str (js "Ok, here's an SSML example of whisper.") ])
    by (vm_compute; reflexivity).
  split; [exact E |]. rewrite E. discriminate.
Qed.

(** C1, amended: a tell-example dispatch whose topic parameter is present
    and non-empty but is neither a key of the catalog nor a property name
    that the catalog object inherits is not treated as not understood: the
    catalog access gives [undefined], the reply is the single segment that
    is the lead-in for that name, never the apology and topic list, and the
    conversation continues. *)
Theorem tell_example_unknown_topic (r : Request) (element : jsstring) :
  intent r = Actions.TELL_EXAMPLE ->
  topic_parameter r = Some element ->
  element <> [] ->
  ~ In element elements ->
  ~ In element object_prototype_names ->
  get examples element = Undefined
  /\ reply (ssmlExamples r)
     = Some [ Str (completeResponses.leadToExample element) ]
  /\ reply (ssmlExamples r)
     <> Some [ Str completeResponses.didNotUnderstand;
               Str completeResponses.examplesList ]
  /\ continues (ssmlExamples r) = true.
Proof.
  intros Hi Ht Hne Hkey Hproto.
  pose proof (get_undefined examples element Hkey Hproto) as Hget.
  rewrite (dispatch_tell_example r Hi), (tell_example_topic r element Ht Hne).
  rewrite Hget.
  split; [reflexivity |].
  split; [reflexivity |].
  split; [| reflexivity].
  cbn [reply ask response richResponse items addSimpleResponse falsy].
  discriminate.
Qed.

Lemma tell_example_unknown_topic_witness :
  get examples (js "whisper") = Undefined
  /\ reply (ssmlExamples request_unknown_topic)
     = Some [ Str (completeResponses.leadToExample (js "whisper")) ]
  /\ reply (ssmlExamples request_unknown_topic)
     <> Some [ Str completeResponses.didNotUnderstand;
               Str completeResponses.examplesList ]
  /\ continues (ssmlExamples request_unknown_topic) = true.
Proof.
  apply (tell_example_unknown_topic request_unknown_topic (js "whisper")).
  - reflexivity.
  - reflexivity.
  - discriminate.
  - exact whisper_not_a_topic.
  - exact whisper_not_inherited.
Defined.

(** ** The tag function on concrete inputs *)

(** C2: on the fragments [<speak>] and [</speak>] and the one value
    [1 + 1 > 1] written between double quotes, the result is
    [<speak>&quot;1 + 1 &gt; 1&quot;</speak>]: the value is escaped, the
    fragments are not. *)
Theorem ssml_quoted_equation :
  ssml [js "<speak>"; js "</speak>"] [[QUOT] ++ js "1 + 1 > 1" ++ [QUOT]]
  = Ok (js "<speak>&quot;1 + 1 &gt; 1&quot;</speak>").
Proof. vm_compute. reflexivity. Qed.

(** C7, as stated, fails: on an empty sequence of fragments [reduce] has no
    initial value and throws. *)
Lemma ssml_empty_template_throws :
  ssml [] [] = Throw TypeError
  /\ ~ (exists out, ssml [] [] = Ok out).
Proof.
  split; [reflexivity |]. intros [out H]. discriminate H.
Qed.

(** A value is missing for the second fragment: [inputs[0]] is
    [undefined]. *)
Example ssml_missing_input_throws :
  ssml [js "a"; js "b"] [] = Throw TypeError.
Proof. reflexivity. Qed.

Lemma reduceFrom_ssml_step_ok (inputs : list jsstring) :
  forall (strs : list jsstring) (acc : jsstring) (i : nat),
    (i <> 0)%nat ->
    (i + List.length strs <= S (List.length inputs))%nat ->
    exists out, reduceFrom (ssml_step inputs) acc i strs = Ok out.
Proof.
  induction strs as [|str strs IH]; intros acc i Hi Hlen.
  - exists acc. reflexivity.
  - simpl in Hlen. destruct i as [|j]; [congruence |].
    simpl. destruct (nth_error inputs j) as [input|] eqn:E.
    + simpl. apply IH; lia.
    + apply nth_error_None in E. lia.
Qed.

(** C7, amended: on a non-empty sequence of fragments that comes with a
    value for every gap between fragments, the escaper returns a string; a
    single fragment without values gives the normalized fragment, and the
    empty fragment gives the empty string. *)
Theorem ssml_total_on_tagged_templates
  (template inputs : list jsstring) :
  template <> [] ->
  (List.length template <= S (List.length inputs))%nat ->
  (exists out, ssml template inputs = Ok out)
  /\ (forall str, template = [str] -> ssml template inputs = Ok (normalize str))
  /\ (template = [[]] -> ssml template inputs = Ok []).
Proof.
  intros Hne Hlen. split; [| split].
  - destruct template as [|str0 strs]; [congruence |].
    unfold ssml, reduce.
    destruct (reduceFrom_ssml_step_ok inputs strs str0 1) as [out E].
    + discriminate.
    + simpl in Hlen. lia.
    + rewrite E. eexists. reflexivity.
  - intros str ->. reflexivity.
  - intros ->. reflexivity.
Qed.

Lemma ssml_total_on_tagged_templates_witness :
  (exists out, ssml [js " a "] [] = Ok out)
  /\ (forall str, [js " a "] = [str] -> ssml [js " a "] [] = Ok (normalize str))
  /\ ([js " a "] = [[]] -> ssml [js " a "] [] = Ok []).
Proof.
  apply (ssml_total_on_tagged_templates [js " a "] []).
  - discriminate.
  - simpl. lia.
Defined.

(** ** Escaping of computed expressions *)

Lemma replaceAll_single (p : code_unit) (rep s : jsstring) :
  replaceAll [p] rep s = flat_map (fun c => if c =? p then rep else [c]) s.
Proof.
  unfold replaceAll. induction s as [|c t IH]; [reflexivity |].
  cbn [replaceFrom isPrefixOf List.length Nat.pred flat_map].
  rewrite andb_true_r, N.eqb_sym, IH.
  destruct (c =? p); reflexivity.
Qed.

Lemma escape_pointwise (c : code_unit) :
  flat_map (fun c => if c =? QUOT then js "&quot;" else [c])
    (flat_map (fun c => if c =? GT then js "&gt;" else [c])
       (flat_map (fun c => if c =? LT then js "&lt;" else [c])
          (if c =? AMP then js "&amp;" else [c])))
  = entity c.
Proof.
  unfold entity.
  destruct (c =? AMP) eqn:Ea; [reflexivity |].
  cbn [flat_map app].
  destruct (c =? LT) eqn:El; [reflexivity |].
  cbn [flat_map app].
  destruct (c =? GT) eqn:Eg; [reflexivity |].
  cbn [flat_map app].
  destruct (c =? QUOT) eqn:Eq; reflexivity.
Qed.

Lemma escape_eq_simultaneous (input : jsstring) :
  escape input = escape_simultaneous input.
Proof.
  unfold escape, escape_simultaneous.
  rewrite !replaceAll_single.
  induction input as [|c t IH]; [reflexivity |].
  cbn [flat_map]. rewrite !flat_map_app.
  f_equal; [apply escape_pointwise | exact IH].
Qed.

Lemma nth_error_skipn_cons {A} (l : list A) (i : nat) (x : A) :
  nth_error l i = Some x -> skipn i l = x :: skipn (S i) l.
Proof.
  revert i. induction l as [|a l IH]; intros [|i] H; try discriminate H.
  - injection H as ->. reflexivity.
  - cbn [nth_error] in H. cbn [skipn]. rewrite (IH i H). reflexivity.
Qed.

Lemma reduceFrom_ssml_step_interleaved (inputs : list jsstring) :
  forall (strs : list jsstring) (acc : jsstring) (i : nat),
    (i + List.length strs <= List.length inputs)%nat ->
    reduceFrom (ssml_step inputs) acc (S i) strs
    = Ok (interleaved acc strs (skipn i inputs)).
Proof.
  unfold interleaved.
  induction strs as [|str strs IH]; intros acc i Hlen.
  - cbn [reduceFrom]. destruct (skipn i inputs); cbn [combine map List.concat];
      rewrite app_nil_r; reflexivity.
  - cbn [List.length] in Hlen. cbn [reduceFrom ssml_step].
    destruct (nth_error inputs i) as [input|] eqn:E.
    + cbn [bind]. rewrite (IH _ (S i)) by lia.
      rewrite (nth_error_skipn_cons inputs i input E).
      cbn [combine map List.concat fst snd].
      rewrite <- !app_assoc. reflexivity.
    + apply nth_error_None in E. lia.
Qed.

Lemma ssml_interleaved (str0 : jsstring) (strs inputs : list jsstring) :
  (List.length strs <= List.length inputs)%nat ->
  ssml (str0 :: strs) inputs = Ok (normalize (interleaved str0 strs inputs)).
Proof.
  intros Hlen. unfold ssml, reduce.
  rewrite (reduceFrom_ssml_step_interleaved inputs strs str0 0) by exact Hlen.
  reflexivity.
Qed.

(** C3: every dynamic value handed to the escaper enters the result with
    each of its original code units replaced once: the ampersand, the
    less-than sign, the greater-than sign and the double quote by their
    entities, any other code unit by itself, while the fragments are taken
    as they are.  This is what the four successive replacements amount to:
    the ampersand of an entity is not escaped again, and the value made of
    one less-than sign comes out as [&lt;]. *)
Theorem escape_once_per_character
  (str0 : jsstring) (strs inputs : list jsstring) :
  (List.length strs <= List.length inputs)%nat ->
  ssml (str0 :: strs) inputs
  = Ok (normalize
          (str0 ++ List.concat
                     (map (fun p => flat_map entity (fst p) ++ snd p)
                        (combine inputs strs))))
  /\ (forall input, escape input = flat_map entity input)
  /\ entity AMP = js "&amp;"
  /\ entity LT = js "&lt;"
  /\ entity GT = js "&gt;"
  /\ entity QUOT = js "&quot;"
  /\ (forall c, c <> AMP -> c <> LT -> c <> GT -> c <> QUOT -> entity c = [c])
  /\ escape [LT] = js "&lt;"
  /\ escape [LT] <> js "&amp;lt;"
  /\ ssml [[]; []] [[LT]] = Ok (js "&lt;")
  /\ ssml [[]; []] [[LT]] <> Ok (js "&amp;lt;").
Proof.
  intros Hlen. split.
  { rewrite (ssml_interleaved str0 strs inputs Hlen). unfold interleaved.
    do 4 f_equal. apply map_ext. intros [v str]. cbn [fst snd].
    rewrite escape_eq_simultaneous. reflexivity. }
  split; [apply escape_eq_simultaneous |].
  repeat (split; [reflexivity |]).
  split.
  - intros c Ha Hl Hg Hq. unfold entity.
    apply N.eqb_neq in Ha, Hl, Hg, Hq. rewrite Ha, Hl, Hg, Hq. reflexivity.
  - split; [reflexivity |]. split; [discriminate |].
    split; [reflexivity | discriminate].
Qed.

Lemma escape_once_per_character_witness :
  ssml [js "<p>"; js " & "; js "</p>"] [js "a<b"; [QUOT; AMP; GT]]
  = Ok (normalize
          (js "<p>" ++ List.concat
                         (map (fun p => flat_map entity (fst p) ++ snd p)
                            (combine [js "a<b"; [QUOT; AMP; GT]]
                               [js " & "; js "</p>"]))))
  /\ (forall input, escape input = flat_map entity input)
  /\ entity AMP = js "&amp;"
  /\ entity LT = js "&lt;"
  /\ entity GT = js "&gt;"
  /\ entity QUOT = js "&quot;"
  /\ (forall c, c <> AMP -> c <> LT -> c <> GT -> c <> QUOT -> entity c = [c])
  /\ escape [LT] = js "&lt;"
  /\ escape [LT] <> js "&amp;lt;"
  /\ ssml [[]; []] [[LT]] = Ok (js "&lt;")
  /\ ssml [[]; []] [[LT]] <> Ok (js "&amp;lt;").
Proof.
  apply (escape_once_per_character (js "<p>") [js " & "; js "</p>"]
           [js "a<b"; [QUOT; AMP; GT]]).
  simpl. lia.
Defined.

Example escape_once_per_character_result :
  ssml [js "<p>"; js " & "; js "</p>"] [js "a<b"; [QUOT; AMP; GT]]
  = Ok (js "<p>a&lt;b & &quot;&amp;&gt;</p>").
Proof. reflexivity. Qed.

(** ** Whitespace normalization *)

Example words_example :
  words (js "  <p>  a b" ++ nl ++ js " </p> ")
  = [js "<p>"; js "a"; js "b"; js "</p>"].
Proof. reflexivity. Qed.

Example normalize_spec_example :
  normalize_spec (js "  <p>  a b" ++ nl ++ js " </p> ") = js "<p>a b</p>".
Proof. reflexivity. Qed.

Example normalize_example :
  normalize (js "  <p>  a b" ++ nl ++ js " </p> ") = js "<p>a b</p>".
Proof. reflexivity. Qed.

(** Unfolding equations of the two replacements around tags. *)
Lemma replace_space_lt_cons (c : code_unit) (t : jsstring) :
  replaceAll [SP; LT] [LT] (c :: t)
  = if (c =? SP) && starts_with LT t
    then replaceAll [SP; LT] [LT] t
    else c :: replaceAll [SP; LT] [LT] t.
Proof.
  unfold replaceAll.
  cbn [replaceFrom isPrefixOf List.length Nat.pred].
  rewrite (N.eqb_sym SP c).
  destruct (c =? SP) eqn:Ec; [| reflexivity].
  destruct t as [|d t']; [reflexivity |].
  cbn [andb starts_with]. rewrite (N.eqb_sym LT d), andb_true_r.
  destruct (d =? LT) eqn:Ed; [| reflexivity].
  apply N.eqb_eq in Ed. subst d.
  cbn [app replaceFrom isPrefixOf]. reflexivity.
Qed.

Lemma replace_gt_space_cons (c : code_unit) (t : jsstring) :
  replaceAll [GT; SP] [GT] (c :: t)
  = c :: (if (c =? GT) && starts_with SP t
          then replaceAll [GT; SP] [GT] (tl t)
          else replaceAll [GT; SP] [GT] t).
Proof.
  unfold replaceAll.
  cbn [replaceFrom isPrefixOf List.length Nat.pred].
  rewrite (N.eqb_sym GT c).
  destruct (c =? GT) eqn:Ec; [| reflexivity].
  apply N.eqb_eq in Ec. subst c.
  destruct t as [|d t']; [reflexivity |].
  cbn [andb starts_with]. rewrite (N.eqb_sym SP d), andb_true_r.
  destruct (d =? SP) eqn:Ed; reflexivity.
Qed.

(** *** Trimming keeps the words *)

Lemma words_trimStart (s : jsstring) : words (trimStart s) = words s.
Proof.
  induction s as [|c t IH]; [reflexivity |].
  cbn [trimStart]. destruct (is_space c) eqn:Ec.
  - rewrite IH. cbn [words]. rewrite Ec. reflexivity.
  - reflexivity.
Qed.

Lemma trimEnd_cons (c : code_unit) (t : jsstring) :
  trimEnd (c :: t)
  = match trimEnd t with
    | [] => if is_space c then [] else [c]
    | _ :: _ => c :: trimEnd t
    end.
Proof. cbn [trimEnd]. destruct (trimEnd t); reflexivity. Qed.

Lemma trimEnd_nil_not_visible (s : jsstring) :
  trimEnd s = [] -> starts_visible s = false.
Proof.
  destruct s as [|c t]; [reflexivity |].
  rewrite trimEnd_cons. cbn [starts_visible].
  destruct (trimEnd t); destruct (is_space c); try reflexivity; discriminate.
Qed.

Lemma starts_visible_trimEnd (s : jsstring) :
  trimEnd s <> [] -> starts_visible (trimEnd s) = starts_visible s.
Proof.
  destruct s as [|c t]; [reflexivity |].
  rewrite trimEnd_cons.
  destruct (trimEnd t); destruct (is_space c) eqn:Ec; cbn [starts_visible];
    try rewrite Ec; try reflexivity; congruence.
Qed.

Lemma words_trimEnd (s : jsstring) : words (trimEnd s) = words s.
Proof.
  induction s as [|c t IH]; [reflexivity |].
  rewrite trimEnd_cons.
  destruct (trimEnd t) as [|d r] eqn:Et.
  - pose proof (trimEnd_nil_not_visible t Et) as Hv.
    cbn [words] in *. rewrite Hv, <- IH.
    destruct (is_space c) eqn:Ec; cbn [words]; try rewrite Ec; reflexivity.
  - assert (Hv : starts_visible (trimEnd t) = starts_visible t)
      by (apply starts_visible_trimEnd; rewrite Et; discriminate).
    rewrite Et in Hv. cbn [words]. rewrite Hv, <- IH.
    destruct (is_space c); reflexivity.
Qed.

Lemma words_trim (s : jsstring) : words (trim s) = words s.
Proof. unfold trim. rewrite words_trimEnd, words_trimStart. reflexivity. Qed.

Lemma no_trailing_space_trimEnd (s : jsstring) :
  no_trailing_space (trimEnd s) = true.
Proof.
  induction s as [|c t IH]; [reflexivity |].
  rewrite trimEnd_cons. destruct (trimEnd t) as [|d r] eqn:Et.
  - destruct (is_space c) eqn:Ec; cbn [no_trailing_space];
      [reflexivity | rewrite Ec; reflexivity].
  - exact IH.
Qed.

Lemma no_leading_space_trimStart (s : jsstring) :
  no_leading_space (trimStart s) = true.
Proof.
  induction s as [|c t IH]; [reflexivity |].
  cbn [trimStart]. destruct (is_space c) eqn:Ec; [exact IH |].
  cbn [no_leading_space]. rewrite Ec. reflexivity.
Qed.

Lemma no_leading_space_trimEnd (s : jsstring) :
  no_leading_space s = true -> no_leading_space (trimEnd s) = true.
Proof.
  destruct s as [|c t]; [reflexivity |].
  rewrite trimEnd_cons. cbn [no_leading_space]. intros Hc.
  destruct (trimEnd t); [| exact Hc].
  destruct (is_space c) eqn:Ec; [reflexivity |].
  cbn [no_leading_space]. rewrite Ec. reflexivity.
Qed.

Lemma trim_trimmed (s : jsstring) :
  no_leading_space (trim s) = true /\ no_trailing_space (trim s) = true.
Proof.
  unfold trim. split.
  - apply no_leading_space_trimEnd, no_leading_space_trimStart.
  - apply no_trailing_space_trimEnd.
Qed.

(** *** Collapsing the runs of whitespace of a trimmed string *)

Lemma glue_space_cons (c : code_unit) (w : jsstring) (ws : list jsstring) :
  glue_with space_separator ((c :: w) :: ws)
  = c :: glue_with space_separator (w :: ws).
Proof. destruct ws; reflexivity. Qed.

Lemma starts_visible_words (s : jsstring) :
  starts_visible s = true -> words s <> [].
Proof.
  destruct s as [|c t]; [discriminate |].
  cbn [starts_visible words]. intros Hc.
  apply negb_true_iff in Hc. rewrite Hc.
  destruct (starts_visible t); [destruct (words t) |]; discriminate.
Qed.

Lemma no_trailing_space_words (s : jsstring) :
  no_trailing_space s = true -> s <> [] -> words s <> [].
Proof.
  induction s as [|c t IH]; [congruence |].
  intros Ht _. cbn [words].
  destruct (is_space c) eqn:Ec.
  - destruct t as [|d t'].
    + cbn [no_trailing_space] in Ht. rewrite Ec in Ht. discriminate.
    + apply IH; [exact Ht | discriminate].
  - destruct (starts_visible t); [destruct (words t) |]; discriminate.
Qed.

Lemma replaceSpaceRuns_trimmed (s : jsstring) :
  no_trailing_space s = true ->
  replaceSpaceRuns [SP] true s = glue_with space_separator (words s)
  /\ replaceSpaceRuns [SP] false s
     = if no_leading_space s
       then glue_with space_separator (words s)
       else SP :: glue_with space_separator (words s).
Proof.
  induction s as [|c t IH]; [split; reflexivity |].
  intros Ht. destruct t as [|d t'].
  - cbn [no_trailing_space] in Ht. apply negb_true_iff in Ht.
    cbn [replaceSpaceRuns words no_leading_space starts_visible].
    rewrite Ht. split; reflexivity.
  - assert (Ht' : no_trailing_space (d :: t') = true) by exact Ht.
    destruct (IH Ht') as [IHt IHf]. clear IH.
    remember (d :: t') as t eqn:Et.
    assert (Hlv : starts_visible t = no_leading_space t)
      by (rewrite Et; reflexivity).
    cbn [replaceSpaceRuns words no_leading_space].
    destruct (is_space c) eqn:Ec.
    + cbn [negb]. rewrite IHt. split; reflexivity.
    + cbn [negb]. rewrite IHf, Hlv.
      destruct (no_leading_space t) eqn:El.
      * apply starts_visible_words in Hlv.
        destruct (words t) as [|w ws]; [congruence |].
        rewrite glue_space_cons. split; reflexivity.
      * assert (Hw : words t <> [])
          by (apply no_trailing_space_words;
              [exact Ht' | rewrite Et; discriminate]).
        destruct (words t) as [|w ws]; [congruence |].
        split; reflexivity.
Qed.

Lemma collapse_trim (s : jsstring) :
  replaceSpaces [SP] (trim s) = glue_with space_separator (words s).
Proof.
  destruct (trim_trimmed s) as [Hl Ht].
  destruct (replaceSpaceRuns_trimmed (trim s) Ht) as [_ Hf].
  unfold replaceSpaces. rewrite Hf, Hl, words_trim. reflexivity.
Qed.

(** *** The words of a string *)

Lemma words_are_words (s : jsstring) : Forall is_word (words s).
Proof.
  induction s as [|c t IH]; [constructor |].
  cbn [words]. destruct (is_space c) eqn:Ec; [exact IH |].
  destruct (starts_visible t).
  - destruct (words t) as [|w ws].
    + constructor; [| constructor]. split; [discriminate |].
      cbn [visible_only forallb]. rewrite Ec. reflexivity.
    + inversion IH as [|? ? [_ Hw] Hws]; subst.
      constructor; [| exact Hws]. split; [discriminate |].
      cbn [visible_only forallb]. rewrite Ec. exact Hw.
  - constructor; [| exact IH]. split; [discriminate |].
    cbn [visible_only forallb]. rewrite Ec. reflexivity.
Qed.

Lemma visible_not_SP (c : code_unit) : is_space c = false -> (c =? SP) = false.
Proof.
  intros H. destruct (c =? SP) eqn:E; [| reflexivity].
  apply N.eqb_eq in E. subst c. discriminate H.
Qed.

Lemma visible_only_cons (c : code_unit) (w : jsstring) :
  visible_only (c :: w) = true ->
  is_space c = false /\ visible_only w = true.
Proof.
  cbn [visible_only forallb]. intros H. apply andb_true_iff in H.
  destruct H as [Hc Hw]. apply negb_true_iff in Hc. split; assumption.
Qed.

Lemma starts_with_glue (x : code_unit) (sep : jsstring -> jsstring -> jsstring)
  (w : jsstring) (rest : list jsstring) :
  w <> [] -> starts_with x (glue_with sep (w :: rest)) = starts_with x w.
Proof.
  intros Hw. destruct w as [|c w]; [congruence |].
  destruct rest; reflexivity.
Qed.

(** *** The two replacements around tags, on glued words *)

Lemma replace_space_lt_word (w x : jsstring) :
  visible_only w = true ->
  replaceAll [SP; LT] [LT] (w ++ x) = w ++ replaceAll [SP; LT] [LT] x.
Proof.
  induction w as [|c w IH]; intros Hw; [reflexivity |].
  apply visible_only_cons in Hw. destruct Hw as [Hc Hw].
  cbn [app]. rewrite replace_space_lt_cons, (visible_not_SP c Hc).
  cbn [andb]. rewrite (IH Hw). reflexivity.
Qed.

Lemma replace_space_lt_glue (ws : list jsstring) :
  Forall is_word ws ->
  replaceAll [SP; LT] [LT] (glue_with space_separator ws)
  = glue_with lt_separator ws.
Proof.
  induction ws as [|w rest IH]; intros Hws; [reflexivity |].
  inversion Hws as [|? ? [Hne Hw] Hrest]; subst.
  destruct rest as [|w' rest'].
  - cbn [glue_with]. rewrite <- (app_nil_r w) at 1.
    rewrite (replace_space_lt_word w [] Hw). apply app_nil_r.
  - specialize (IH Hrest).
    inversion Hrest as [|? ? [Hne' Hw'] _]; subst.
    change (glue_with space_separator (w :: w' :: rest'))
      with (w ++ SP :: glue_with space_separator (w' :: rest')).
    change (glue_with lt_separator (w :: w' :: rest'))
      with (w ++ lt_separator w w' ++ glue_with lt_separator (w' :: rest')).
    rewrite (replace_space_lt_word w _ Hw), replace_space_lt_cons, IH.
    rewrite (starts_with_glue LT space_separator w' rest' Hne').
    unfold lt_separator. cbn [N.eqb SP Pos.eqb andb].
    destruct (starts_with LT w'); reflexivity.
Qed.

Lemma ends_with_cons (x c c' : code_unit) (w : jsstring) :
  ends_with x (c :: c' :: w) = ends_with x (c' :: w).
Proof. reflexivity. Qed.

Lemma replace_gt_space_word (w x : jsstring) :
  is_word w ->
  replaceAll [GT; SP] [GT] (w ++ x)
  = w ++ (if ends_with GT w && starts_with SP x
          then replaceAll [GT; SP] [GT] (tl x)
          else replaceAll [GT; SP] [GT] x).
Proof.
  intros [Hne Hw]. induction w as [|c w IH]; [congruence |]. clear Hne.
  apply visible_only_cons in Hw. destruct Hw as [Hc Hw].
  cbn [app]. rewrite replace_gt_space_cons.
  destruct w as [|c' w'].
  - reflexivity.
  - destruct (visible_only_cons c' w' Hw) as [Hc' _].
    cbn [app starts_with]. rewrite (visible_not_SP c' Hc'), andb_false_r.
    rewrite ends_with_cons.
    change (c' :: w' ++ x) with ((c' :: w') ++ x).
    rewrite IH; [reflexivity | discriminate | exact Hw].
Qed.

Lemma replace_gt_space_glue (ws : list jsstring) :
  Forall is_word ws ->
  replaceAll [GT; SP] [GT] (glue_with lt_separator ws)
  = glue_with tag_separator ws.
Proof.
  induction ws as [|w rest IH]; intros Hws; [reflexivity |].
  inversion Hws as [|? ? Hword Hrest]; subst.
  destruct rest as [|w' rest'].
  - cbn [glue_with]. rewrite <- (app_nil_r w) at 1.
    rewrite (replace_gt_space_word w [] Hword).
    cbn [starts_with]. rewrite andb_false_r. apply app_nil_r.
  - specialize (IH Hrest).
    inversion Hrest as [|? ? [Hne' Hw'] _]; subst.
    change (glue_with lt_separator (w :: w' :: rest'))
      with (w ++ lt_separator w w' ++ glue_with lt_separator (w' :: rest')).
    change (glue_with tag_separator (w :: w' :: rest'))
      with (w ++ tag_separator w w' ++ glue_with tag_separator (w' :: rest')).
    rewrite (replace_gt_space_word w _ Hword).
    assert (El : lt_separator w w' = if starts_with LT w' then [] else [SP])
      by reflexivity.
    assert (Et : tag_separator w w'
                 = if ends_with GT w || starts_with LT w' then [] else [SP])
      by reflexivity.
    rewrite El, Et. clear El Et.
    destruct (starts_with LT w') eqn:Elt.
    + cbn [app]. rewrite orb_true_r.
      rewrite (starts_with_glue SP lt_separator w' rest' Hne').
      destruct w' as [|d w'']; [congruence |].
      cbn [starts_with] in *. apply N.eqb_eq in Elt. subst d.
      cbn [N.eqb LT SP Pos.eqb]. rewrite andb_false_r, IH. reflexivity.
    + cbn [app starts_with tl]. rewrite N.eqb_refl, andb_true_r, orb_false_r.
      destruct (ends_with GT w).
      * rewrite IH. reflexivity.
      * rewrite replace_gt_space_cons. cbn [N.eqb SP GT Pos.eqb andb].
        rewrite IH. reflexivity.
Qed.

(** The chain of the source computes the normalization of the spec. *)
Lemma normalize_eq_spec (s : jsstring) : normalize s = normalize_spec s.
Proof.
  unfold normalize, normalize_spec.
  rewrite collapse_trim.
  rewrite (replace_space_lt_glue _ (words_are_words s)).
  apply replace_gt_space_glue, words_are_words.
Qed.

(** *** The normalization of the spec gives a whitespace-normal string *)

Lemma concat_words (s : jsstring) : List.concat (words s) = visible s.
Proof.
  induction s as [|c t IH]; [reflexivity |].
  cbn [words visible filter]. fold (visible t).
  destruct (is_space c) eqn:Ec; cbn [negb]; [exact IH |].
  rewrite <- IH.
  destruct (starts_visible t); [destruct (words t) |]; reflexivity.
Qed.

Lemma visible_word (w : jsstring) : visible_only w = true -> visible w = w.
Proof.
  induction w as [|c w IH]; [reflexivity |].
  intros H. apply visible_only_cons in H. destruct H as [Hc Hw].
  cbn [visible filter]. rewrite Hc. cbn [negb]. fold (visible w).
  rewrite (IH Hw). reflexivity.
Qed.

Lemma visible_app (a b : jsstring) : visible (a ++ b) = visible a ++ visible b.
Proof. apply filter_app. Qed.

Lemma visible_tag_separator (w w' : jsstring) :
  visible (tag_separator w w') = [].
Proof.
  unfold tag_separator.
  destruct (ends_with GT w || starts_with LT w'); reflexivity.
Qed.

Lemma visible_glue (ws : list jsstring) :
  Forall is_word ws -> visible (glue_with tag_separator ws) = List.concat ws.
Proof.
  induction ws as [|w rest IH]; intros Hws; [reflexivity |].
  inversion Hws as [|? ? [_ Hw] Hrest]; subst.
  destruct rest as [|w' rest'].
  - cbn [glue_with List.concat]. rewrite app_nil_r. apply visible_word, Hw.
  - change (glue_with tag_separator (w :: w' :: rest'))
      with (w ++ tag_separator w w' ++ glue_with tag_separator (w' :: rest')).
    rewrite !visible_app, visible_tag_separator, (visible_word w Hw).
    rewrite (IH Hrest). reflexivity.
Qed.

Lemma glue_head (sep : jsstring -> jsstring -> jsstring) (d : code_unit)
  (w : jsstring) (rest : list jsstring) :
  exists tail, glue_with sep ((d :: w) :: rest) = d :: tail.
Proof. destruct rest; eexists; reflexivity. Qed.

Lemma last_word_visible (w : jsstring) :
  is_word w -> is_space (last w 0) = false.
Proof.
  intros [Hne Hw]. induction w as [|c w IH]; [congruence |].
  apply visible_only_cons in Hw. destruct Hw as [Hc Hw].
  destruct w as [|c' w']; [exact Hc |].
  apply IH; [discriminate | exact Hw].
Qed.

Lemma no_adjacent_cons (bad : code_unit -> code_unit -> bool)
  (a : code_unit) (x : jsstring) :
  no_adjacent bad (a :: x)
  = match x with
    | [] => true
    | b :: _ => negb (bad a b) && no_adjacent bad x
    end.
Proof. reflexivity. Qed.

Section Neighbours.

Variable bad : code_unit -> code_unit -> bool.

(** [bad] never holds of two visible code units. *)
Hypothesis bad_needs_space :
  forall a b, is_space a = false -> is_space b = false -> bad a b = false.

Lemma no_adjacent_word_app (w x : jsstring) :
  is_word w ->
  no_adjacent bad (w ++ x) = no_adjacent bad (last w 0 :: x).
Proof.
  intros [Hne Hw]. induction w as [|c w IH]; [congruence |]. clear Hne.
  apply visible_only_cons in Hw. destruct Hw as [Hc Hw].
  destruct w as [|c' w']; [reflexivity |].
  destruct (visible_only_cons c' w' Hw) as [Hc' _].
  change ((c :: c' :: w') ++ x) with (c :: ((c' :: w') ++ x)).
  rewrite no_adjacent_cons. cbn [app].
  rewrite (bad_needs_space c c' Hc Hc'). cbn [negb andb].
  change (c' :: w' ++ x) with ((c' :: w') ++ x).
  rewrite IH; [reflexivity | discriminate | exact Hw].
Qed.

(** Around the separating space, [bad] does not hold either. *)
Hypothesis bad_not_at_separator :
  forall w d w',
    is_word w -> is_word (d :: w') ->
    tag_separator w (d :: w') = [SP] ->
    bad (last w 0) SP = false /\ bad SP d = false.

Lemma no_adjacent_glue (ws : list jsstring) :
  Forall is_word ws -> no_adjacent bad (glue_with tag_separator ws) = true.
Proof.
  induction ws as [|w rest IH]; intros Hws; [reflexivity |].
  inversion Hws as [|? ? Hword Hrest]; subst.
  destruct rest as [|w' rest'].
  - cbn [glue_with]. rewrite <- (app_nil_r w).
    rewrite (no_adjacent_word_app w [] Hword). reflexivity.
  - specialize (IH Hrest).
    inversion Hrest as [|? ? Hword' _]; subst.
    change (glue_with tag_separator (w :: w' :: rest'))
      with (w ++ tag_separator w w' ++ glue_with tag_separator (w' :: rest')).
    rewrite (no_adjacent_word_app w _ Hword).
    destruct w' as [|d w'']; [destruct Hword'; congruence |].
    destruct (glue_head tag_separator d w'' rest') as [tail Eg].
    rewrite Eg in IH. rewrite Eg.
    assert (Hd : is_space d = false)
      by (destruct Hword' as [_ Hv]; apply visible_only_cons in Hv; tauto).
    pose proof (last_word_visible w Hword) as Hl.
    pose proof (bad_not_at_separator w d w'' Hword Hword') as Hsep.
    unfold tag_separator in *.
    destruct (ends_with GT w || starts_with LT (d :: w'')).
    + cbn [app]. rewrite no_adjacent_cons, (bad_needs_space _ _ Hl Hd).
      exact IH.
    + destruct (Hsep eq_refl) as [H1 H2].
      cbn [app]. rewrite no_adjacent_cons, H1. cbn [negb andb].
      rewrite no_adjacent_cons, H2. exact IH.
Qed.

End Neighbours.

Lemma no_leading_space_glue (ws : list jsstring) :
  Forall is_word ws -> no_leading_space (glue_with tag_separator ws) = true.
Proof.
  intros Hws. destruct ws as [|w rest]; [reflexivity |].
  inversion Hws as [|? ? [Hne Hw] _]; subst.
  destruct w as [|d w]; [congruence |].
  destruct (glue_head tag_separator d w rest) as [tail ->].
  apply visible_only_cons in Hw. destruct Hw as [Hd _].
  cbn [no_leading_space]. rewrite Hd. reflexivity.
Qed.

Lemma no_trailing_space_app (a b : jsstring) :
  b <> [] -> no_trailing_space (a ++ b) = no_trailing_space b.
Proof.
  intros Hb. induction a as [|c a IH]; [reflexivity |].
  cbn [app no_trailing_space].
  destruct (a ++ b) eqn:E; [| exact IH].
  apply app_eq_nil in E. destruct E; congruence.
Qed.

Lemma no_trailing_space_word (w : jsstring) :
  is_word w -> no_trailing_space w = true.
Proof.
  intros [Hne Hw]. induction w as [|c w IH]; [congruence |]. clear Hne.
  apply visible_only_cons in Hw. destruct Hw as [Hc Hw].
  cbn [no_trailing_space]. destruct w as [|c' w'].
  - rewrite Hc. reflexivity.
  - apply IH; [discriminate | exact Hw].
Qed.

Lemma no_trailing_space_glue (ws : list jsstring) :
  Forall is_word ws -> no_trailing_space (glue_with tag_separator ws) = true.
Proof.
  induction ws as [|w rest IH]; intros Hws; [reflexivity |].
  inversion Hws as [|? ? Hword Hrest]; subst.
  destruct rest as [|w' rest'].
  - apply no_trailing_space_word, Hword.
  - specialize (IH Hrest).
    inversion Hrest as [|? ? [Hne' _] _]; subst.
    destruct w' as [|d w'']; [congruence |].
    change (glue_with tag_separator (w :: (d :: w'') :: rest'))
      with (w ++ tag_separator w (d :: w'')
              ++ glue_with tag_separator ((d :: w'') :: rest')).
    destruct (glue_head tag_separator d w'' rest') as [tail Eg].
    rewrite Eg in IH. rewrite Eg.
    rewrite app_assoc. rewrite no_trailing_space_app; [exact IH | discriminate].
Qed.

Lemma only_plain_spaces_app (a b : jsstring) :
  only_plain_spaces (a ++ b) = only_plain_spaces a && only_plain_spaces b.
Proof. apply forallb_app. Qed.

Lemma only_plain_spaces_word (w : jsstring) :
  visible_only w = true -> only_plain_spaces w = true.
Proof.
  induction w as [|c w IH]; [reflexivity |].
  intros H. apply visible_only_cons in H. destruct H as [Hc Hw].
  cbn [only_plain_spaces forallb]. rewrite Hc. exact (IH Hw).
Qed.

Lemma only_plain_spaces_glue (ws : list jsstring) :
  Forall is_word ws -> only_plain_spaces (glue_with tag_separator ws) = true.
Proof.
  induction ws as [|w rest IH]; intros Hws; [reflexivity |].
  inversion Hws as [|? ? [_ Hw] Hrest]; subst.
  destruct rest as [|w' rest'].
  - apply only_plain_spaces_word, Hw.
  - change (glue_with tag_separator (w :: w' :: rest'))
      with (w ++ tag_separator w w' ++ glue_with tag_separator (w' :: rest')).
    rewrite !only_plain_spaces_app, (only_plain_spaces_word w Hw), (IH Hrest).
    unfold tag_separator.
    destruct (ends_with GT w || starts_with LT w'); reflexivity.
Qed.

Lemma tag_separator_space (w w' : jsstring) :
  tag_separator w w' = [SP] ->
  ends_with GT w = false /\ starts_with LT w' = false.
Proof.
  unfold tag_separator.
  destruct (ends_with GT w); destruct (starts_with LT w');
    cbn [orb]; intros H; try discriminate H; split; reflexivity.
Qed.

Lemma whitespace_normal_glue (ws : list jsstring) :
  Forall is_word ws ->
  whitespace_normal (glue_with tag_separator ws) = true.
Proof.
  intros Hws. unfold whitespace_normal, single_spaced.
  rewrite (no_leading_space_glue ws Hws), (no_trailing_space_glue ws Hws),
    (only_plain_spaces_glue ws Hws).
  rewrite (no_adjacent_glue space_space), (no_adjacent_glue space_lt),
    (no_adjacent_glue gt_space); try exact Hws; try reflexivity.
  - intros a b Ha Hb. unfold gt_space. rewrite Hb. apply andb_false_r.
  - intros w d w' Hword Hword' Hsep.
    apply tag_separator_space in Hsep. destruct Hsep as [Hgt _].
    unfold gt_space. split; [| reflexivity].
    destruct w as [|c w]; [destruct Hword; congruence |].
    cbn [ends_with] in Hgt. rewrite Hgt. reflexivity.
  - intros a b Ha Hb. unfold space_lt. rewrite Ha. reflexivity.
  - intros w d w' Hword Hword' Hsep.
    apply tag_separator_space in Hsep. destruct Hsep as [_ Hlt].
    unfold space_lt. rewrite (last_word_visible w Hword).
    split; [reflexivity |]. cbn [starts_with] in Hlt. rewrite Hlt.
    apply andb_false_r.
  - intros a b Ha Hb. unfold space_space. rewrite Ha. reflexivity.
  - intros w d w' Hword Hword' Hsep.
    unfold space_space. rewrite (last_word_visible w Hword).
    split; [reflexivity |].
    destruct Hword' as [_ Hv]. apply visible_only_cons in Hv.
    destruct Hv as [Hd _]. rewrite Hd. apply andb_false_r.
Qed.

(** The string that [reduce] builds from two fragments and one value. *)
Example reduce_two_fragments (a v b : jsstring) :
  reduce (ssml_step [v]) [a; b] = Ok (a ++ escape v ++ b).
Proof. reflexivity. Qed.

(** C4: whatever string the fragments and escaped values concatenate to, the
    result of the escaper is that string without leading and trailing
    whitespace, with every interior run of whitespace (line breaks included)
    turned into a single space, and with that space removed before a
    less-than sign and after a greater-than sign.  So the result is made of
    the words of the concatenation, in order, one space apart except next to
    such a sign; it neither starts nor ends with whitespace, its only
    whitespace is the plain space, never twice in a row, never before a
    less-than sign and never after a greater-than sign; and no visible code
    unit is lost or added. *)
Theorem ssml_normalizes_whitespace
  (template inputs : list jsstring) (raw : jsstring) :
  reduce (ssml_step inputs) template = Ok raw ->
  exists out,
    ssml template inputs = Ok out
    /\ out = glue_with tag_separator (words raw)
    /\ no_leading_space out = true
    /\ no_trailing_space out = true
    /\ only_plain_spaces out = true
    /\ no_adjacent space_space out = true
    /\ no_adjacent space_lt out = true
    /\ no_adjacent gt_space out = true
    /\ visible out = visible raw.
Proof.
  intros Hraw. exists (normalize raw).
  split; [unfold ssml; rewrite Hraw; reflexivity |].
  rewrite normalize_eq_spec. unfold normalize_spec.
  split; [reflexivity |].
  pose proof (whitespace_normal_glue (words raw) (words_are_words raw)) as Hn.
  unfold whitespace_normal, single_spaced in Hn.
  repeat (apply andb_true_iff in Hn; destruct Hn as [Hn ?]).
  repeat (split; [assumption |]).
  rewrite (visible_glue _ (words_are_words raw)). apply concat_words.
Qed.

Lemma ssml_normalizes_whitespace_witness :
  exists out,
    ssml indented_template [js "x  y"] = Ok out
    /\ out = glue_with tag_separator
               (words (nl ++ js "  <speak>" ++ nl ++ nl ++ js "    a  > x  y < b"
                          ++ nl ++ js "  </speak>" ++ nl))
    /\ no_leading_space out = true
    /\ no_trailing_space out = true
    /\ only_plain_spaces out = true
    /\ no_adjacent space_space out = true
    /\ no_adjacent space_lt out = true
    /\ no_adjacent gt_space out = true
    /\ visible out
       = visible (nl ++ js "  <speak>" ++ nl ++ nl ++ js "    a  > x  y < b"
                     ++ nl ++ js "  </speak>" ++ nl).
Proof.
  apply (ssml_normalizes_whitespace indented_template [js "x  y"]).
  reflexivity.
Defined.

Example indented_template_result :
  ssml indented_template [js "x  y"] = Ok (js "<speak>a >x y< b</speak>").
Proof. reflexivity. Qed.

(** *** Whitespace-normal strings are left unchanged *)

Lemma no_adjacent_tail (bad : code_unit -> code_unit -> bool)
  (c : code_unit) (t : jsstring) :
  no_adjacent bad (c :: t) = true -> no_adjacent bad t = true.
Proof.
  rewrite no_adjacent_cons. destruct t as [|d t']; [reflexivity |].
  intros H. apply andb_true_iff in H. tauto.
Qed.

Lemma trimStart_fixed (s : jsstring) :
  no_leading_space s = true -> trimStart s = s.
Proof.
  destruct s as [|c t]; [reflexivity |].
  cbn [no_leading_space trimStart]. intros H.
  apply negb_true_iff in H. rewrite H. reflexivity.
Qed.

Lemma trimEnd_fixed (s : jsstring) :
  no_trailing_space s = true -> trimEnd s = s.
Proof.
  induction s as [|c t IH]; [reflexivity |].
  intros H. rewrite trimEnd_cons. destruct t as [|d t'].
  - cbn [no_trailing_space] in H. apply negb_true_iff in H.
    cbn [trimEnd]. rewrite H. reflexivity.
  - rewrite (IH H). reflexivity.
Qed.

Lemma replaceSpaceRuns_fixed (s : jsstring) :
  only_plain_spaces s = true ->
  no_adjacent space_space s = true ->
  replaceSpaceRuns [SP] false s = s
  /\ (no_leading_space s = true -> replaceSpaceRuns [SP] true s = s).
Proof.
  induction s as [|c t IH]; [split; reflexivity |].
  intros Hp Ha.
  cbn [only_plain_spaces forallb] in Hp. apply andb_true_iff in Hp.
  destruct Hp as [Hc Hp].
  destruct (IH Hp (no_adjacent_tail _ c t Ha)) as [IHf IHt]. clear IH.
  cbn [replaceSpaceRuns no_leading_space].
  destruct (is_space c) eqn:Ec.
  - cbn [negb orb] in Hc. apply N.eqb_eq in Hc. subst c.
    split; [| discriminate].
    cbn [app]. f_equal. apply IHt.
    rewrite no_adjacent_cons in Ha. destruct t as [|d t']; [reflexivity |].
    apply andb_true_iff in Ha. destruct Ha as [Ha _].
    unfold space_space in Ha. rewrite Ec in Ha. cbn [andb] in Ha.
    exact Ha.
  - rewrite IHf. split; reflexivity.
Qed.

Lemma replace_space_lt_fixed (s : jsstring) :
  no_adjacent space_lt s = true -> replaceAll [SP; LT] [LT] s = s.
Proof.
  induction s as [|c t IH]; [reflexivity |].
  intros Ha. rewrite replace_space_lt_cons.
  rewrite (IH (no_adjacent_tail _ c t Ha)).
  destruct ((c =? SP) && starts_with LT t) eqn:E; [| reflexivity].
  apply andb_true_iff in E. destruct E as [Ec Et].
  apply N.eqb_eq in Ec. subst c.
  destruct t as [|d t']; [discriminate Et |].
  cbn [starts_with] in Et.
  rewrite no_adjacent_cons in Ha. unfold space_lt at 1 in Ha.
  rewrite Et in Ha. discriminate Ha.
Qed.

Lemma replace_gt_space_fixed (s : jsstring) :
  no_adjacent gt_space s = true -> replaceAll [GT; SP] [GT] s = s.
Proof.
  induction s as [|c t IH]; [reflexivity |].
  intros Ha. rewrite replace_gt_space_cons.
  rewrite (IH (no_adjacent_tail _ c t Ha)).
  destruct ((c =? GT) && starts_with SP t) eqn:E; [| reflexivity].
  apply andb_true_iff in E. destruct E as [Ec Et].
  destruct t as [|d t']; [discriminate Et |].
  cbn [starts_with] in Et. apply N.eqb_eq in Et. subst d.
  rewrite no_adjacent_cons in Ha. unfold gt_space at 1 in Ha.
  rewrite Ec in Ha. discriminate Ha.
Qed.

Lemma normalize_fixed (s : jsstring) :
  whitespace_normal s = true -> normalize s = s.
Proof.
  unfold whitespace_normal, single_spaced. intros H.
  repeat (apply andb_true_iff in H; destruct H as [H ?]).
  unfold normalize, trim, replaceSpaces.
  rewrite (trimStart_fixed s), (trimEnd_fixed s) by assumption.
  destruct (replaceSpaceRuns_fixed s) as [-> _]; try assumption.
  rewrite (replace_space_lt_fixed s), (replace_gt_space_fixed s)
    by assumption.
  reflexivity.
Qed.

(** Normalizing twice is normalizing once. *)
Lemma normalize_idempotent (s : jsstring) :
  normalize (normalize s) = normalize s.
Proof.
  apply normalize_fixed. rewrite normalize_eq_spec.
  apply whitespace_normal_glue, words_are_words.
Qed.

Lemma escape_fixed (s : jsstring) :
  forallb (fun c => negb (reserved c)) s = true -> escape s = s.
Proof.
  intros H. rewrite escape_eq_simultaneous. unfold escape_simultaneous.
  induction s as [|c t IH]; [reflexivity |].
  cbn [forallb] in H. apply andb_true_iff in H. destruct H as [Hc Ht].
  cbn [flat_map]. rewrite (IH Ht).
  unfold reserved in Hc. apply negb_true_iff in Hc.
  repeat (apply orb_false_iff in Hc; destruct Hc as [Hc ?]).
  unfold entity. rewrite Hc.
  repeat match goal with E : (c =? _) = false |- _ => rewrite E; clear E end.
  reflexivity.
Qed.

Lemma safe_text_has_no_tag_neighbours (s : jsstring) :
  forallb (fun c => negb (reserved c)) s = true ->
  no_adjacent space_lt s = true /\ no_adjacent gt_space s = true.
Proof.
  induction s as [|c t IH]; [split; reflexivity |].
  intros H. cbn [forallb] in H. apply andb_true_iff in H.
  destruct H as [Hc Ht]. destruct (IH Ht) as [IHl IHg]. clear IH.
  rewrite !no_adjacent_cons. destruct t as [|d t']; [split; reflexivity |].
  rewrite IHl, IHg.
  cbn [forallb] in Ht. apply andb_true_iff in Ht. destruct Ht as [Hd _].
  unfold reserved in Hc, Hd. apply negb_true_iff in Hc, Hd.
  repeat (apply orb_false_iff in Hc; destruct Hc as [Hc ?]).
  repeat (apply orb_false_iff in Hd; destruct Hd as [Hd ?]).
  unfold space_lt, gt_space.
  repeat match goal with E : (_ =? _) = false |- _ => rewrite E; clear E end.
  rewrite andb_false_r. split; reflexivity.
Qed.

(** The strings that the normalization leaves unchanged are exactly the
    whitespace-normal ones. *)
Lemma normalize_fixed_iff (s : jsstring) :
  normalize s = s <-> whitespace_normal s = true.
Proof.
  split; [| apply normalize_fixed].
  intros H. rewrite <- H, normalize_eq_spec.
  apply whitespace_normal_glue, words_are_words.
Qed.

(** C8: a string without ampersand, less-than sign, greater-than sign and
    double quote that is in whitespace-normal form (trimmed, with single
    plain spaces as its only whitespace) comes back unchanged, both as the
    only literal fragment and as the value between two empty fragments. *)
Theorem ssml_fixes_safe_normal_text (s : jsstring) :
  forallb (fun c => negb (reserved c)) s = true ->
  single_spaced s = true ->
  ssml [s] [] = Ok s /\ ssml [[]; []] [s] = Ok s.
Proof.
  intros Hsafe Hsingle.
  assert (Hnormal : whitespace_normal s = true).
  { destruct (safe_text_has_no_tag_neighbours s Hsafe) as [Hl Hg].
    unfold whitespace_normal. rewrite Hsingle, Hl, Hg. reflexivity. }
  split.
  - unfold ssml. cbn [reduce reduceFrom bind].
    rewrite (normalize_fixed s Hnormal). reflexivity.
  - unfold ssml. cbn [reduce reduceFrom ssml_step nth_error bind app].
    rewrite app_nil_r, (escape_fixed s Hsafe), (normalize_fixed s Hnormal).
    reflexivity.
Qed.

Lemma ssml_fixes_safe_normal_text_witness :
  ssml [js "Step 1, take a deep breath."] []
  = Ok (js "Step 1, take a deep breath.")
  /\ ssml [[]; []] [js "Step 1, take a deep breath."]
     = Ok (js "Step 1, take a deep breath.").
Proof.
  apply (ssml_fixes_safe_normal_text (js "Step 1, take a deep breath."));
    reflexivity.
Defined.

(** * Further properties of the code *)

(** ** Escaping *)

Lemma entity_cases (c : code_unit) :
  (c = AMP /\ entity c = [38; 97; 109; 112; 59])
  \/ (c = LT /\ entity c = [38; 108; 116; 59])
  \/ (c = GT /\ entity c = [38; 103; 116; 59])
  \/ (c = QUOT /\ entity c = [38; 113; 117; 111; 116; 59])
  \/ (reserved c = false /\ entity c = [c]).
Proof.
  unfold entity, reserved.
  destruct (c =? AMP) eqn:Ea;
    [apply N.eqb_eq in Ea; left; split; [exact Ea | reflexivity] |].
  destruct (c =? LT) eqn:El;
    [apply N.eqb_eq in El; right; left; split; [exact El | reflexivity] |].
  destruct (c =? GT) eqn:Eg;
    [apply N.eqb_eq in Eg; right; right; left;
     split; [exact Eg | reflexivity] |].
  destruct (c =? QUOT) eqn:Eq;
    [apply N.eqb_eq in Eq; right; right; right; left;
     split; [exact Eq | reflexivity] |].
  right; right; right; right. split; reflexivity.
Qed.

Lemma flat_map_entity_injective (a b : jsstring) :
  flat_map entity a = flat_map entity b -> a = b.
Proof.
  revert b. induction a as [|c a IH]; intros [|d b] H.
  - reflexivity.
  - cbn [flat_map] in H.
    destruct (entity_cases d) as [[_ E]|[[_ E]|[[_ E]|[[_ E]|[_ E]]]]];
      rewrite E in H; discriminate H.
  - cbn [flat_map] in H.
    destruct (entity_cases c) as [[_ E]|[[_ E]|[[_ E]|[[_ E]|[_ E]]]]];
      rewrite E in H; discriminate H.
  - cbn [flat_map] in H.
    destruct (entity_cases c) as [[Hc Ec]|[[Hc Ec]|[[Hc Ec]|[[Hc Ec]|[Hc Ec]]]]];
      destruct (entity_cases d)
        as [[Hd Ed]|[[Hd Ed]|[[Hd Ed]|[[Hd Ed]|[Hd Ed]]]]];
      rewrite Ec, Ed in H; cbn [app] in H;
      try discriminate H;
      try (subst c d; injection H as H; f_equal; apply IH; exact H);
      try (subst c; injection H as Hd' H; subst d; discriminate Hd);
      try (subst d; injection H as Hc' H; subst c; discriminate Hc).
    injection H as Hcd H. subst d. f_equal. apply IH. exact H.
Qed.

Lemma entity_length (c : code_unit) :
  (1 <= List.length (entity c))%nat
  /\ (reserved c = true -> 1 < List.length (entity c))%nat.
Proof.
  destruct (entity_cases c) as [[H E]|[[H E]|[[H E]|[[H E]|[H E]]]]];
    rewrite E; cbn [List.length]; split; try lia;
    rewrite H; discriminate.
Qed.

Lemma escape_length_ge (s : jsstring) :
  (List.length s <= List.length (flat_map entity s))%nat.
Proof.
  induction s as [|c t IH]; [reflexivity |].
  cbn [flat_map List.length]. rewrite length_app.
  destruct (entity_length c) as [H _]. lia.
Qed.

Lemma escape_length_gt (s : jsstring) :
  forallb (fun c => negb (reserved c)) s = false ->
  (List.length s < List.length (flat_map entity s))%nat.
Proof.
  induction s as [|c t IH]; [discriminate |].
  cbn [forallb flat_map List.length]. rewrite length_app. intros H.
  destruct (entity_length c) as [H1 H2].
  destruct (reserved c) eqn:Ec.
  - specialize (H2 eq_refl). pose proof (escape_length_ge t). lia.
  - cbn [negb andb] in H. specialize (IH H). lia.
Qed.

Lemma escape_fixed_safe (s : jsstring) :
  escape s = s -> forallb (fun c => negb (reserved c)) s = true.
Proof.
  rewrite escape_eq_simultaneous. unfold escape_simultaneous. intros H.
  destruct (forallb (fun c => negb (reserved c)) s) eqn:E; [reflexivity |].
  apply escape_length_gt in E. rewrite H in E. lia.
Qed.

(** X1: escaping loses nothing: two values with the same escaped text are
    the same value. *)
Theorem escape_injective (a b : jsstring) :
  escape a = escape b -> a = b.
Proof.
  rewrite !escape_eq_simultaneous. apply flat_map_entity_injective.
Qed.

Lemma escape_injective_witness : js "a<b" = js "a<b".
Proof.
  apply (escape_injective (js "a<b") (js "a<b")). reflexivity.
Defined.

Lemma entity_markup_free (c : code_unit) :
  forallb (fun x => negb (markup_sign x)) (entity c) = true.
Proof.
  destruct (entity_cases c) as [[H E]|[[H E]|[[H E]|[[H E]|[H E]]]]];
    rewrite E; try reflexivity.
  cbn [forallb]. rewrite andb_true_r. apply negb_true_iff.
  unfold reserved in H. unfold markup_sign.
  repeat (apply orb_false_iff in H; destruct H as [H ?]).
  repeat match goal with E : (c =? _) = false |- _ => rewrite E; clear E end.
  reflexivity.
Qed.

Lemma escape_markup_free (s : jsstring) :
  forallb (fun x => negb (markup_sign x)) (escape s) = true.
Proof.
  rewrite escape_eq_simultaneous. unfold escape_simultaneous.
  induction s as [|c t IH]; [reflexivity |].
  cbn [flat_map]. rewrite forallb_app, entity_markup_free. exact IH.
Qed.

Lemma count_app (c : code_unit) (a b : jsstring) :
  count c (a ++ b) = (count c a + count c b)%nat.
Proof. apply count_occ_app. Qed.

Lemma entity_count_amp (c : code_unit) :
  count AMP (entity c) = if reserved c then 1%nat else 0%nat.
Proof.
  destruct (entity_cases c) as [[H E]|[[H E]|[[H E]|[[H E]|[H E]]]]];
    rewrite E; try (subst c; reflexivity).
  rewrite H. unfold count. cbn [count_occ].
  destruct (N.eq_dec c AMP) as [->|_]; [discriminate H | reflexivity].
Qed.

(** X2: an escaped value holds no less-than sign, no greater-than sign and
    no double quote, and it holds one ampersand for every ampersand,
    less-than sign, greater-than sign or double quote of the value. *)
Theorem escape_output_is_markup_free (s : jsstring) :
  forallb (fun x => negb (markup_sign x)) (escape s) = true
  /\ count AMP (escape s) = List.length (filter reserved s).
Proof.
  split; [apply escape_markup_free |].
  rewrite escape_eq_simultaneous. unfold escape_simultaneous.
  induction s as [|c t IH]; [reflexivity |].
  cbn [flat_map filter]. rewrite count_app, entity_count_amp, IH.
  destruct (reserved c); reflexivity.
Qed.

(** X3: escaping is not idempotent: a value is left unchanged exactly when
    it holds none of the four reserved code units, any other value grows,
    and escaping a second time changes the text again exactly for those
    values. *)
Theorem escape_twice_iff_safe (s : jsstring) :
  (escape s = s <-> forallb (fun c => negb (reserved c)) s = true)
  /\ (escape (escape s) = escape s
      <-> forallb (fun c => negb (reserved c)) s = true)
  /\ (List.length s <= List.length (escape s))%nat
  /\ (forallb (fun c => negb (reserved c)) s = false ->
      List.length s < List.length (escape s))%nat.
Proof.
  split; [split; [apply escape_fixed_safe | apply escape_fixed] |].
  split.
  - split.
    + intros H. apply escape_fixed_safe.
      rewrite !escape_eq_simultaneous in H.
      apply flat_map_entity_injective in H.
      rewrite escape_eq_simultaneous. exact H.
    + intros H. rewrite (escape_fixed s H). apply escape_fixed, H.
  - rewrite escape_eq_simultaneous.
    split; [apply escape_length_ge | apply escape_length_gt].
Qed.

Example escape_twice_ampersand :
  escape (escape [AMP]) = js "&amp;amp;".
Proof. reflexivity. Qed.

(** X4: escaping goes through concatenation. *)
Theorem escape_app (a b : jsstring) :
  escape (a ++ b) = escape a ++ escape b.
Proof.
  rewrite !escape_eq_simultaneous. apply flat_map_app.
Qed.

(** ** The reduction over the fragments *)

Lemma reduceFrom_ssml_step_throws (inputs : list jsstring) :
  forall (strs : list jsstring) (acc : jsstring) (i : nat),
    (i <> 0)%nat ->
    (i <= S (List.length inputs))%nat ->
    (S (List.length inputs) < i + List.length strs)%nat ->
    reduceFrom (ssml_step inputs) acc i strs = Throw TypeError.
Proof.
  induction strs as [|str strs IH]; intros acc i Hi Hle Hlt.
  - cbn [List.length] in Hlt. lia.
  - destruct i as [|j]; [congruence |].
    cbn [reduceFrom ssml_step]. cbn [List.length] in Hlt.
    destruct (nth_error inputs j) as [input|] eqn:E; [| reflexivity].
    cbn [bind]. apply IH; [discriminate | | lia].
    assert (j < List.length inputs)%nat
      by (apply nth_error_Some; congruence).
    lia.
Qed.

(** X5: the escaper throws exactly when it gets no fragment at all, or
    fewer values than gaps between fragments; the only error is a
    TypeError. *)
Theorem ssml_throws_iff (template inputs : list jsstring) :
  (ssml template inputs = Throw TypeError
   <-> template = [] \/ (S (List.length inputs) < List.length template)%nat)
  /\ (forall e, ssml template inputs = Throw e -> e = TypeError).
Proof.
  assert (Hcases :
    (template = [] \/ (S (List.length inputs) < List.length template)%nat)
    /\ ssml template inputs = Throw TypeError
    \/ (template <> []
        /\ (List.length template <= S (List.length inputs))%nat
        /\ exists out, ssml template inputs = Ok out)).
  { destruct template as [|str0 strs]; [left; split; [left |]; reflexivity |].
    destruct (Nat.le_gt_cases (List.length (str0 :: strs))
                (S (List.length inputs))) as [Hle | Hgt].
    - right. split; [discriminate |]. split; [exact Hle |].
      unfold ssml, reduce.
      destruct (reduceFrom_ssml_step_ok inputs strs str0 1) as [out E];
        [discriminate | cbn [List.length] in Hle; lia |].
      rewrite E. eexists. reflexivity.
    - left. split; [right; exact Hgt |].
      unfold ssml, reduce.
      rewrite (reduceFrom_ssml_step_throws inputs strs str0 1);
        [reflexivity | discriminate | lia |].
      cbn [List.length] in Hgt. lia. }
  split.
  - split.
    + intros H. destruct Hcases as [[Hc _] | [_ [_ [out E]]]]; [exact Hc |].
      rewrite E in H. discriminate H.
    + intros H. destruct Hcases as [[_ Ht] | [Hne [Hle _]]]; [exact Ht |].
      destruct H as [H | H]; [congruence | lia].
  - intros [] _. reflexivity.
Qed.

(** X6: with a value for every gap, the result is the normalization of the
    first fragment followed, gap by gap, by the escaped value and the next
    fragment; the fragments themselves are not escaped. *)
Theorem ssml_is_normalized_interleaving
  (str0 : jsstring) (strs inputs : list jsstring) :
  (List.length strs <= List.length inputs)%nat ->
  ssml (str0 :: strs) inputs
  = Ok (normalize
          (str0 ++ List.concat
                     (map (fun p => escape (fst p) ++ snd p)
                        (combine inputs strs)))).
Proof.
  intros Hlen. unfold ssml, reduce.
  rewrite (reduceFrom_ssml_step_interleaved inputs strs str0 0) by exact Hlen.
  reflexivity.
Qed.

Lemma ssml_is_normalized_interleaving_witness :
  ssml [js "<p>"; js " & "; js "</p>"] [js "a<b"; js "c"]
  = Ok (normalize
          (js "<p>" ++ List.concat
                         (map (fun p => escape (fst p) ++ snd p)
                            (combine [js "a<b"; js "c"]
                               [js " & "; js "</p>"])))).
Proof.
  apply (ssml_is_normalized_interleaving (js "<p>") [js " & "; js "</p>"]
           [js "a<b"; js "c"]).
  simpl. lia.
Defined.

Example ssml_interleaving_result :
  ssml [js "<p>"; js " & "; js "</p>"] [js "a<b"; js "c"]
  = Ok (js "<p>a&lt;b & c</p>").
Proof. reflexivity. Qed.

Lemma combine_app_surplus {A B} (l extra : list A) (m : list B) :
  (List.length m <= List.length l)%nat ->
  combine (l ++ extra) m = combine l m.
Proof.
  revert m. induction l as [|a l IH]; intros [|b m] H;
    cbn [List.length] in H; try reflexivity; try lia.
  - destruct extra; reflexivity.
  - cbn [app combine]. rewrite IH by lia. reflexivity.
Qed.

(** X7: values beyond the last gap are ignored. *)
Theorem ssml_ignores_surplus_inputs
  (template inputs extra : list jsstring) :
  (List.length template <= S (List.length inputs))%nat ->
  ssml template (inputs ++ extra) = ssml template inputs.
Proof.
  intros Hlen. destruct template as [|str0 strs]; [reflexivity |].
  cbn [List.length] in Hlen.
  rewrite !ssml_interleaved; [| lia | rewrite length_app; lia].
  unfold interleaved. rewrite combine_app_surplus by lia. reflexivity.
Qed.

Lemma ssml_ignores_surplus_inputs_witness :
  ssml [js "a "; js " b"] ([js "x"] ++ [js "y"; js "z"])
  = ssml [js "a "; js " b"] [js "x"].
Proof.
  apply (ssml_ignores_surplus_inputs [js "a "; js " b"] [js "x"]
           [js "y"; js "z"]).
  simpl. lia.
Defined.

(** ** What the result keeps of the fragments and of the values *)

Lemma ssml_ok_inv (template inputs : list jsstring) (out : jsstring) :
  ssml template inputs = Ok out ->
  exists str0 strs,
    template = str0 :: strs
    /\ (List.length strs <= List.length inputs)%nat
    /\ out = normalize (interleaved str0 strs inputs).
Proof.
  intros H. destruct template as [|str0 strs]; [discriminate H |].
  exists str0, strs. split; [reflexivity |].
  destruct (Nat.le_gt_cases (List.length strs) (List.length inputs))
    as [Hle | Hgt].
  - split; [exact Hle |]. rewrite (ssml_interleaved _ _ _ Hle) in H.
    injection H as H. symmetry. exact H.
  - unfold ssml, reduce in H.
    rewrite (reduceFrom_ssml_step_throws inputs strs str0 1) in H;
      [discriminate H | discriminate | lia | lia].
Qed.

Lemma visible_normalize (s : jsstring) : visible (normalize s) = visible s.
Proof.
  rewrite normalize_eq_spec. unfold normalize_spec.
  rewrite (visible_glue _ (words_are_words s)). apply concat_words.
Qed.

Lemma count_visible (c : code_unit) (s : jsstring) :
  is_space c = false -> count c (visible s) = count c s.
Proof.
  intros Hc. unfold count, visible.
  induction s as [|x t IH]; [reflexivity |].
  cbn [filter]. destruct (is_space x) eqn:Ex; cbn [negb count_occ].
  - destruct (N.eq_dec x c) as [->|_]; [congruence | exact IH].
  - rewrite IH. reflexivity.
Qed.

Lemma markup_sign_visible (c : code_unit) :
  markup_sign c = true -> is_space c = false.
Proof.
  unfold markup_sign. intros H.
  repeat (apply orb_true_iff in H; destruct H as [H | H]);
    apply N.eqb_eq in H; subst c; reflexivity.
Qed.

Lemma count_markup_free (c : code_unit) (s : jsstring) :
  markup_sign c = true ->
  forallb (fun x => negb (markup_sign x)) s = true ->
  count c s = 0%nat.
Proof.
  intros Hc. unfold count. induction s as [|x t IH]; [reflexivity |].
  cbn [forallb count_occ]. intros H. apply andb_true_iff in H.
  destruct H as [Hx Ht].
  destruct (N.eq_dec x c) as [->|_]; [| exact (IH Ht)].
  rewrite Hc in Hx. discriminate Hx.
Qed.

Lemma count_interleaved (c : code_unit) (str0 : jsstring) :
  markup_sign c = true ->
  forall strs inputs : list jsstring,
    (List.length strs <= List.length inputs)%nat ->
    count c (interleaved str0 strs inputs)
    = count c (List.concat (str0 :: strs)).
Proof.
  intros Hc. unfold interleaved. cbn [List.concat].
  intros strs inputs Hlen. rewrite !count_app. f_equal.
  revert inputs Hlen. induction strs as [|str strs IH]; intros inputs Hlen.
  - destruct inputs; reflexivity.
  - destruct inputs as [|v inputs]; cbn [List.length] in Hlen; [lia |].
    cbn [combine map List.concat fst snd]. rewrite !count_app.
    rewrite (count_markup_free c (escape v) Hc (escape_markup_free v)).
    rewrite IH by lia. reflexivity.
Qed.

(** X8: values never add markup: the result holds exactly as many
    less-than signs, greater-than signs and double quotes as the literal
    fragments do. *)
Theorem ssml_markup_comes_from_fragments
  (template inputs : list jsstring) (out : jsstring) (c : code_unit) :
  ssml template inputs = Ok out ->
  markup_sign c = true ->
  count c out = count c (List.concat template).
Proof.
  intros Hok Hc.
  destruct (ssml_ok_inv template inputs out Hok)
    as [str0 [strs [-> [Hlen ->]]]].
  rewrite <- (count_visible c (normalize _) (markup_sign_visible c Hc)).
  rewrite visible_normalize, (count_visible c _ (markup_sign_visible c Hc)).
  apply count_interleaved; assumption.
Qed.

Lemma ssml_markup_comes_from_fragments_witness :
  count LT (js "<p>a&lt;b & c</p>")
  = count LT (List.concat [js "<p>"; js " & "; js "</p>"]).
Proof.
  apply (ssml_markup_comes_from_fragments
           [js "<p>"; js " & "; js "</p>"] [js "a<b"; js "c"]
           (js "<p>a&lt;b & c</p>") LT); reflexivity.
Defined.

(** X9: a result of the escaper, given back to it as the only literal
    fragment, comes out unchanged. *)
Theorem ssml_output_is_stable
  (template inputs : list jsstring) (out : jsstring) :
  ssml template inputs = Ok out -> ssml [out] [] = Ok out.
Proof.
  intros Hok.
  destruct (ssml_ok_inv template inputs out Hok) as [str0 [strs [_ [_ ->]]]].
  unfold ssml. cbn [reduce reduceFrom bind].
  rewrite normalize_idempotent. reflexivity.
Qed.

Lemma ssml_output_is_stable_witness :
  ssml [js "<speak>a >x y< b</speak>"] []
  = Ok (js "<speak>a >x y< b</speak>").
Proof.
  apply (ssml_output_is_stable indented_template [js "x  y"]). reflexivity.
Defined.

Lemma words_nil_iff (s : jsstring) :
  words s = [] <-> forallb is_space s = true.
Proof.
  induction s as [|c t IH]; [split; reflexivity |].
  cbn [words forallb]. destruct (is_space c) eqn:Ec; [exact IH |].
  cbn [andb]. split; [| discriminate].
  destruct (starts_visible t); [destruct (words t) |]; discriminate.
Qed.

Lemma glue_nil (sep : jsstring -> jsstring -> jsstring)
  (ws : list jsstring) :
  Forall is_word ws -> glue_with sep ws = [] -> ws = [].
Proof.
  intros Hws H. destruct ws as [|w rest]; [reflexivity |].
  inversion Hws as [|? ? [Hne _] _]; subst.
  destruct w as [|d w]; [congruence |].
  destruct (glue_head sep d w rest) as [tail E].
  rewrite E in H. discriminate H.
Qed.

Lemma normalize_nil_iff (s : jsstring) :
  normalize s = [] <-> forallb is_space s = true.
Proof.
  rewrite normalize_eq_spec, <- words_nil_iff. unfold normalize_spec.
  split.
  - apply glue_nil, words_are_words.
  - intros ->. reflexivity.
Qed.

(** X10: the result is the empty string exactly when the fragments and
    escaped values concatenate to whitespace only (or to nothing). *)
Theorem ssml_empty_iff_blank
  (template inputs : list jsstring) (raw : jsstring) :
  reduce (ssml_step inputs) template = Ok raw ->
  (ssml template inputs = Ok [] <-> forallb is_space raw = true).
Proof.
  intros Hraw. unfold ssml. rewrite Hraw. cbn [bind].
  rewrite <- normalize_nil_iff. split.
  - intros H. injection H as H. exact H.
  - intros ->. reflexivity.
Qed.

Lemma ssml_empty_iff_blank_witness :
  ssml [nl ++ js "   "; js "  " ++ nl] [js " "] = Ok []
  <-> forallb is_space (nl ++ js "      " ++ nl) = true.
Proof.
  apply (ssml_empty_iff_blank [nl ++ js "   "; js "  " ++ nl] [js " "]).
  reflexivity.
Defined.

(** ** The size of the result *)

Lemma trimStart_length (s : jsstring) :
  (List.length (trimStart s) <= List.length s)%nat.
Proof.
  induction s as [|c t IH]; [reflexivity |].
  cbn [trimStart]. destruct (is_space c); cbn [List.length]; lia.
Qed.

Lemma trimEnd_length (s : jsstring) :
  (List.length (trimEnd s) <= List.length s)%nat.
Proof.
  induction s as [|c t IH]; [reflexivity |].
  rewrite trimEnd_cons.
  destruct (trimEnd t); [destruct (is_space c) |]; cbn [List.length] in *; lia.
Qed.

Lemma replaceSpaceRuns_length (inRun : bool) (s : jsstring) :
  (List.length (replaceSpaceRuns [SP] inRun s) <= List.length s)%nat.
Proof.
  revert inRun. induction s as [|c t IH]; intros inRun; [reflexivity |].
  cbn [replaceSpaceRuns].
  destruct (is_space c); [destruct inRun |]; cbn [app List.length].
  - specialize (IH true). lia.
  - specialize (IH true). lia.
  - specialize (IH false). lia.
Qed.

Lemma isPrefixOf_length (pat s : jsstring) :
  isPrefixOf pat s = true -> (List.length pat <= List.length s)%nat.
Proof.
  revert s. induction pat as [|p pat IH]; intros s H; [cbn; lia |].
  destruct s as [|c s]; [discriminate H |].
  cbn [isPrefixOf] in H. apply andb_true_iff in H. destruct H as [_ H].
  specialize (IH s H). cbn [List.length]. lia.
Qed.

(** A global replacement whose replacement text is no longer than its
    pattern does not lengthen the string. *)
Lemma replaceFrom_length (pat rep : jsstring) :
  pat <> [] ->
  (List.length rep <= List.length pat)%nat ->
  forall (s : jsstring) (skip : nat),
    (List.length (replaceFrom pat rep skip s)
     + Nat.min skip (List.length s) <= List.length s)%nat.
Proof.
  intros Hne Hrep. induction s as [|c t IH]; intros skip.
  - cbn [replaceFrom List.length]. lia.
  - cbn [replaceFrom]. destruct skip as [|k].
    + destruct (isPrefixOf pat (c :: t)) eqn:Em.
      * apply isPrefixOf_length in Em. cbn [List.length] in Em.
        specialize (IH (Nat.pred (List.length pat))).
        rewrite length_app. cbn [List.length].
        destruct pat as [|p pat]; [congruence |].
        cbn [List.length Nat.pred] in *. lia.
      * specialize (IH O). cbn [List.length]. lia.
    + specialize (IH k). cbn [List.length]. lia.
Qed.

Lemma replaceAll_length (pat rep s : jsstring) :
  pat <> [] ->
  (List.length rep <= List.length pat)%nat ->
  (List.length (replaceAll pat rep s) <= List.length s)%nat.
Proof.
  intros Hne Hrep. unfold replaceAll.
  pose proof (replaceFrom_length pat rep Hne Hrep s O). lia.
Qed.

Lemma normalize_length (s : jsstring) :
  (List.length (normalize s) <= List.length s)%nat.
Proof.
  unfold normalize, trim, replaceSpaces.
  assert (Hlt : [SP; LT] <> []) by discriminate.
  assert (Hgt : [GT; SP] <> []) by discriminate.
  assert (Hlen : (1 <= 2)%nat) by lia.
  pose proof (trimStart_length s).
  pose proof (trimEnd_length (trimStart s)).
  pose proof (replaceSpaceRuns_length false (trimEnd (trimStart s))).
  pose proof (replaceAll_length [SP; LT] [LT]
                (replaceSpaceRuns [SP] false (trimEnd (trimStart s)))
                Hlt Hlen).
  pose proof (replaceAll_length [GT; SP] [GT]
                (replaceAll [SP; LT] [LT]
                   (replaceSpaceRuns [SP] false (trimEnd (trimStart s))))
                Hgt Hlen).
  lia.
Qed.

Lemma visible_length (s : jsstring) :
  (List.length (visible s) <= List.length s)%nat.
Proof. apply filter_length_le. Qed.

(** X11: the result is never longer than the concatenation of the
    fragments and escaped values, and never shorter than what that
    concatenation holds besides whitespace. *)
Theorem ssml_result_length
  (template inputs : list jsstring) (raw out : jsstring) :
  reduce (ssml_step inputs) template = Ok raw ->
  ssml template inputs = Ok out ->
  (List.length (visible raw) <= List.length out <= List.length raw)%nat.
Proof.
  intros Hraw Hout. unfold ssml in Hout. rewrite Hraw in Hout.
  injection Hout as <-. split.
  - rewrite <- visible_normalize. apply visible_length.
  - apply normalize_length.
Qed.

Lemma ssml_result_length_witness :
  (List.length
     (visible (nl ++ js "  <speak>" ++ nl ++ nl ++ js "    a  > x  y < b"
                  ++ nl ++ js "  </speak>" ++ nl))
   <= List.length (js "<speak>a >x y< b</speak>")
   <= List.length (nl ++ js "  <speak>" ++ nl ++ nl ++ js "    a  > x  y < b"
                      ++ nl ++ js "  </speak>" ++ nl))%nat.
Proof.
  apply (ssml_result_length indented_template [js "x  y"]); reflexivity.
Defined.

(** ** A value on its own *)

Lemma space_not_reserved (c : code_unit) :
  is_space c = true -> reserved c = false.
Proof.
  intros H. unfold reserved.
  destruct (c =? AMP) eqn:Ea;
    [apply N.eqb_eq in Ea; subst c; discriminate H |].
  destruct (c =? LT) eqn:El;
    [apply N.eqb_eq in El; subst c; discriminate H |].
  destruct (c =? GT) eqn:Eg;
    [apply N.eqb_eq in Eg; subst c; discriminate H |].
  destruct (c =? QUOT) eqn:Eq;
    [apply N.eqb_eq in Eq; subst c; discriminate H |].
  reflexivity.
Qed.

Lemma entity_space (c : code_unit) : is_space c = true -> entity c = [c].
Proof.
  intros H. apply space_not_reserved in H. unfold reserved in H.
  repeat (apply orb_false_iff in H; destruct H as [H ?]).
  unfold entity. rewrite H.
  repeat match goal with E : (c =? _) = false |- _ => rewrite E; clear E end.
  reflexivity.
Qed.

Lemma entity_word (c : code_unit) : is_space c = false -> is_word (entity c).
Proof.
  intros Hc.
  destruct (entity_cases c) as [[H E]|[[H E]|[[H E]|[[H E]|[H E]]]]];
    rewrite E; split; try discriminate; try reflexivity.
  cbn [visible_only forallb]. rewrite Hc. reflexivity.
Qed.

Lemma starts_visible_word_app (w s : jsstring) :
  is_word w -> starts_visible (w ++ s) = true.
Proof.
  intros [Hne Hw]. destruct w as [|c w]; [congruence |].
  apply visible_only_cons in Hw. destruct Hw as [Hc _].
  cbn [app starts_visible]. rewrite Hc. reflexivity.
Qed.

Lemma starts_visible_escape (s : jsstring) :
  starts_visible (flat_map entity s) = starts_visible s.
Proof.
  destruct s as [|c t]; [reflexivity |].
  cbn [flat_map starts_visible]. destruct (is_space c) eqn:Ec.
  - rewrite (entity_space c Ec). cbn [app starts_visible].
    rewrite Ec. reflexivity.
  - apply starts_visible_word_app, entity_word, Ec.
Qed.

Lemma words_word_app (w s : jsstring) :
  is_word w ->
  words (w ++ s)
  = if starts_visible s
    then match words s with
         | w' :: ws => (w ++ w') :: ws
         | [] => [w]
         end
    else w :: words s.
Proof.
  intros [Hne Hw]. induction w as [|c w IH]; [congruence |]. clear Hne.
  apply visible_only_cons in Hw. destruct Hw as [Hc Hw].
  cbn [app words]. rewrite Hc.
  destruct w as [|c' w'].
  - cbn [app]. destruct (starts_visible s); [destruct (words s) |];
      reflexivity.
  - assert (Hword : is_word (c' :: w')) by (split; [discriminate | exact Hw]).
    rewrite (starts_visible_word_app (c' :: w') s Hword).
    rewrite (IH ltac:(discriminate) Hw).
    destruct (starts_visible s); [destruct (words s) |]; reflexivity.
Qed.

Lemma words_escape (s : jsstring) :
  words (flat_map entity s) = map (flat_map entity) (words s).
Proof.
  induction s as [|c t IH]; [reflexivity |].
  cbn [flat_map words]. destruct (is_space c) eqn:Ec.
  - rewrite (entity_space c Ec). cbn [app words]. rewrite Ec. exact IH.
  - rewrite (words_word_app (entity c) _ (entity_word c Ec)).
    rewrite starts_visible_escape, IH.
    destruct (starts_visible t); [destruct (words t) |];
      cbn [map flat_map]; rewrite ?app_nil_r; reflexivity.
Qed.

Lemma forallb_last (P : code_unit -> bool) (w : jsstring) :
  forallb P w = true -> w <> [] -> P (last w 0) = true.
Proof.
  induction w as [|c w IH]; [congruence |].
  cbn [forallb]. intros H _. apply andb_true_iff in H. destruct H as [Hc Hw].
  destruct w as [|c' w']; [exact Hc |].
  apply IH; [exact Hw | discriminate].
Qed.

Lemma tag_separator_markup_free (w w' : jsstring) :
  forallb (fun x => negb (markup_sign x)) w = true ->
  forallb (fun x => negb (markup_sign x)) w' = true ->
  tag_separator w w' = [SP].
Proof.
  intros Hw Hw'. unfold tag_separator.
  assert (E1 : ends_with GT w = false).
  { destruct w as [|c w]; [reflexivity |].
    pose proof (forallb_last _ (c :: w) Hw ltac:(discriminate)) as Hl.
    cbn [ends_with]. apply negb_true_iff in Hl. unfold markup_sign in Hl.
    repeat (apply orb_false_iff in Hl; destruct Hl as [Hl ?]).
    assumption. }
  assert (E2 : starts_with LT w' = false).
  { destruct w' as [|d w']; [reflexivity |].
    cbn [forallb] in Hw'. apply andb_true_iff in Hw'. destruct Hw' as [Hd _].
    cbn [starts_with]. apply negb_true_iff in Hd. unfold markup_sign in Hd.
    repeat (apply orb_false_iff in Hd; destruct Hd as [Hd ?]).
    assumption. }
  rewrite E1, E2. reflexivity.
Qed.

Lemma glue_markup_free (ws : list jsstring) :
  Forall (fun w => forallb (fun x => negb (markup_sign x)) w = true) ws ->
  glue_with tag_separator ws = glue_with space_separator ws.
Proof.
  induction ws as [|w rest IH]; intros H; [reflexivity |].
  inversion H as [|? ? Hw Hrest]; subst.
  destruct rest as [|w' rest']; [reflexivity |].
  inversion Hrest as [|? ? Hw' _]; subst.
  change (glue_with tag_separator (w :: w' :: rest'))
    with (w ++ tag_separator w w' ++ glue_with tag_separator (w' :: rest')).
  rewrite (tag_separator_markup_free w w' Hw Hw'), (IH Hrest).
  reflexivity.
Qed.

(** X12: a value between two empty fragments comes out as its words, each
    escaped, one plain space apart: the whitespace of a value is trimmed and
    collapsed like that of the fragments, but a space next to an escaped
    less-than or greater-than sign of the value stays. *)
Theorem ssml_lone_value (input : jsstring) :
  ssml [[]; []] [input]
  = Ok (glue_with space_separator (map escape (words input))).
Proof.
  unfold ssml. cbn [reduce reduceFrom ssml_step nth_error bind app].
  rewrite app_nil_r, normalize_eq_spec. unfold normalize_spec.
  rewrite escape_eq_simultaneous. unfold escape_simultaneous.
  rewrite words_escape.
  rewrite (map_ext escape (flat_map entity) escape_eq_simultaneous).
  rewrite glue_markup_free; [reflexivity |].
  apply Forall_forall. intros w Hw. apply in_map_iff in Hw.
  destruct Hw as [w0 [<- _]]. rewrite <- escape_eq_simultaneous.
  apply escape_markup_free.
Qed.

Example ssml_lone_value_example :
  ssml [[]; []] [js "  a <  b> c "] = Ok (js "a &lt; b&gt; c")
  /\ ssml [js "  a <  b> c "] [] = Ok (js "a< b>c").
Proof. split; reflexivity. Qed.

(** ** Further properties of the dispatch *)

Lemma actionMap_entries :
  actionMap
  = [ (Actions.WELCOME, welcomeHandler);
      (Actions.TELL_EXAMPLE, tellExampleHandler);
      (Actions.UNRECOGNIZED_DEEP_LINK, unrecognizedHandler) ].
Proof. reflexivity. Qed.

(** X13: the action map has exactly three entries, under three different
    action names, in the order of registration: no registration overwrites
    another, each action name leads to its own handler, and no handler of
    the file runs for any other action name. *)
Theorem dispatch_defined_for_three_actions (r : Request) :
  map fst actionMap
  = [ Actions.WELCOME; Actions.TELL_EXAMPLE; Actions.UNRECOGNIZED_DEEP_LINK ]
  /\ NoDup (map fst actionMap)
  /\ Map_get actionMap Actions.WELCOME = Some welcomeHandler
  /\ Map_get actionMap Actions.TELL_EXAMPLE = Some tellExampleHandler
  /\ Map_get actionMap Actions.UNRECOGNIZED_DEEP_LINK
     = Some unrecognizedHandler
  /\ (ssmlExamples r = None
      <-> intent r <> Actions.WELCOME
          /\ intent r <> Actions.TELL_EXAMPLE
          /\ intent r <> Actions.UNRECOGNIZED_DEEP_LINK).
Proof.
  split; [reflexivity |].
  split.
  { rewrite actionMap_entries. cbn [map fst].
    repeat constructor; cbn [In]; intros H;
      repeat (destruct H as [H | H]; [discriminate H |]); exact H. }
  split; [reflexivity |]. split; [reflexivity |]. split; [reflexivity |].
  unfold ssmlExamples, handleRequest. cbn [request newApp].
  rewrite actionMap_entries. cbn [Map_get].
  destruct (jsstring_eqb Actions.WELCOME (intent r)) eqn:Ew.
  { apply jsstring_eqb_eq in Ew. split; [discriminate |].
    intros [H _]. congruence. }
  destruct (jsstring_eqb Actions.TELL_EXAMPLE (intent r)) eqn:Et.
  { apply jsstring_eqb_eq in Et. split; [discriminate |].
    intros [_ [H _]]. congruence. }
  destruct (jsstring_eqb Actions.UNRECOGNIZED_DEEP_LINK (intent r)) eqn:Eu.
  { apply jsstring_eqb_eq in Eu. split; [discriminate |].
    intros [_ [_ H]]. congruence. }
  split; [| reflexivity]. intros _.
  repeat split; intros H; symmetry in H; apply jsstring_eqb_eq in H;
    congruence.
Qed.

(** X14: the welcome dispatch replies with the welcome text and then the
    topic list, whatever parameters the request carries, and keeps the
    conversation open. *)
Theorem welcome_reply (r : Request) :
  intent r = Actions.WELCOME ->
  reply (ssmlExamples r)
  = Some [ Str completeResponses.welcome;
           Str completeResponses.examplesList ]
  /\ continues (ssmlExamples r) = true.
Proof.
  intros H. rewrite (dispatch_welcome r H). split; reflexivity.
Qed.

Lemma welcome_reply_witness :
  reply (ssmlExamples request_welcome)
  = Some [ Str completeResponses.welcome;
           Str completeResponses.examplesList ]
  /\ continues (ssmlExamples request_welcome) = true.
Proof.
  apply (welcome_reply request_welcome). reflexivity.
Defined.

Lemma known_topic_document (element : jsstring) :
  In element elements ->
  element <> []
  /\ exists doc,
       get examples element = Str doc
       /\ own_property examples element = Some doc
       /\ doc <> []
       /\ whitespace_normal doc = true.
Proof.
  rewrite elements_eq. intros H. simpl in H.
  repeat (destruct H as [<- | H];
          [split; [discriminate |];
           match goal with
           | |- exists doc, get examples ?e = _ /\ _ =>
               exists (match own_property examples e with
                       | Some d => d
                       | None => []
                       end)
           end;
           split; [vm_compute; reflexivity |];
           split; [vm_compute; reflexivity |];
           split; [vm_compute; discriminate | vm_compute; reflexivity] |]).
  contradiction.
Qed.

(** X15: for a topic that is a key of the catalog, the tell-example
    dispatch replies with the lead-in naming that topic and then the
    document stored under that key, which is not empty and is in
    whitespace-normal form; the conversation stays open. *)
Theorem tell_example_known_topic (r : Request) (element : jsstring) :
  intent r = Actions.TELL_EXAMPLE ->
  topic_parameter r = Some element ->
  In element elements ->
  exists doc,
    own_property examples element = Some doc
    /\ reply (ssmlExamples r)
       = Some [ Str (js "Ok, here's an SSML example of " ++ element ++ js ".");
                Str doc ]
    /\ doc <> []
    /\ whitespace_normal doc = true
    /\ continues (ssmlExamples r) = true.
Proof.
  intros Hi Ht Hin.
  destruct (known_topic_document element Hin)
    as [Hne [doc [Hget [Hown [Hdoc Hnormal]]]]].
  exists doc. split; [exact Hown |].
  rewrite (dispatch_tell_example r Hi), (tell_example_topic r element Ht Hne).
  rewrite Hget, (addSimpleResponse_text doc _ Hdoc).
  cbn [reply ask response richResponse items app].
  repeat split; assumption.
Qed.

Lemma tell_example_known_topic_witness :
  exists doc,
    own_property examples (js "prosody") = Some doc
    /\ reply (ssmlExamples request_prosody)
       = Some [ Str (js "Ok, here's an SSML example of " ++ js "prosody"
                       ++ js ".");
                Str doc ]
    /\ doc <> []
    /\ whitespace_normal doc = true
    /\ continues (ssmlExamples request_prosody) = true.
Proof.
  apply (tell_example_known_topic request_prosody (js "prosody")).
  - reflexivity.
  - reflexivity.
  - rewrite elements_eq. simpl. tauto.
Defined.

(** ** The topic-list expression on other catalogs *)

Lemma firstn_snoc {A} (l : list A) (x : A) :
  firstn (List.length l) (l ++ [x]) = l.
Proof.
  induction l as [|a l IH]; [reflexivity |].
  cbn [List.length app firstn]. rewrite IH. reflexivity.
Qed.

Lemma nth_error_snoc {A} (l : list A) (x : A) :
  nth_error (l ++ [x]) (List.length l) = Some x.
Proof.
  induction l as [|a l IH]; [reflexivity | exact IH].
Qed.

(** X16: the expression that builds the topic list puts the fixed lead, the
    names but the last joined by a comma and a space, then a comma, the word
    and, the last name and a period.  It has no case for short catalogs:
    with a single key the text reads as an empty list followed by that
    name, and with no key at all it names [undefined]. *)
Theorem examplesList_expression (names : list jsstring) (name : jsstring) :
  examplesList_for elements = completeResponses.examplesList
  /\ examplesList_for (names ++ [name])
     = js "You can ask me about " ++ join (js ", ") names
         ++ js ", and " ++ name ++ js "."
  /\ examplesList_for [name]
     = js "You can ask me about , and " ++ name ++ js "."
  /\ examplesList_for [] = js "You can ask me about , and undefined.".
Proof.
  split; [reflexivity |].
  assert (E : examplesList_for (names ++ [name])
              = js "You can ask me about " ++ join (js ", ") names
                  ++ js ", and " ++ name ++ js ".").
  { unfold examplesList_for, slice0.
    rewrite length_app. cbn [List.length].
    replace (List.length names + 1 - 1)%nat with (List.length names) by lia.
    rewrite firstn_snoc, nth_error_snoc. cbn [toString].
    rewrite <- !app_assoc. reflexivity. }
  split; [exact E |].
  split; reflexivity.
Qed.
